(** * NESP: the Nexar asset downloader ([electronics/scripts/nexar_download.py])

    A shallow embedding of the script and the properties its specification
    states about it.  The script resolves a fixed catalog of part numbers
    against a remote service, picks a datasheet reference out of the
    answer, and downloads the assets into a directory tree.

    Layout of the development:
    - [Py]: the fragment of Python's dynamic values the script touches
      (JSON values, truthiness, [dict.get], exceptions, string methods);
    - [Fs]: paths and a directory tree, with [Path.mkdir] and [Path.exists];
    - the script itself: [pick_datasheet], [ensure_digikey_seller],
      [fetch_token], [fetch_part], [download_file], [main];
    - a typed view of part records and the selection policy in the words of
      the specification, for the refinement statements;
    - the theorems. *)

From Stdlib Require Import ZArith NArith Ascii String Strings.Byte List Bool Lia.
From stdpp Require Import base option list gmap strings.

Local Open Scope string_scope.
Local Open Scope list_scope.

(* ===================================================================== *)
(** * Python values                                                       *)
(* ===================================================================== *)

Module Py.

(** What [json.load] produces.  A [JObj] is a [dict] in insertion order with
    distinct keys; lookups take the first binding.  Numbers are integers:
    the script never computes with a number, it only tests truthiness. *)
#[warnings="-register-all"] Inductive json : Type :=
| JNull
| JBool (b : bool)
| JNum (n : Z)
| JStr (s : string)
| JArr (items : list json)
| JObj (fields : list (string * json)).

(** Exceptions, all of them subclasses of [Exception].  [RuntimeError] is
    the one the script raises itself; its payload records which [raise]
    statement produced it.  [URLError] stands for the class and its
    subclasses (HTTPError), [OtherError] for any further exception a library
    call may raise (ValueError, TimeoutError, JSONDecodeError ...). *)
#[warnings="-register-all"] Inductive exn : Type :=
| AttributeError
| TypeError
| KeyError
| IndexError
| FileExistsError
| NotADirectoryError
| IsADirectoryError
| URLError (reason : string)
| OtherError (cls : string)
| RuntimeError (m : message)
with message : Type :=
| TokenMissing (response : json)
| QueryError (mpn : string) (errors : json)
| NoResult (mpn : string)
| DownloadFailed (url : json) (cause : exn).

(** [isinstance(exc, urllib.error.URLError)] *)
Definition is_URLError (e : exn) : bool :=
  match e with URLError _ => true | _ => false end.

Inductive res (A : Type) : Type :=
| Ok (a : A)
| Raise (e : exn).
Arguments Ok {A} a.
Arguments Raise {A} e.

#[global] Instance res_ret : MRet res := fun _ a => Ok a.
#[global] Instance res_bind : MBind res := fun _ _ f m =>
  match m with Ok a => f a | Raise e => Raise e end.

(** [bool(v)] *)
Definition truthy (v : json) : bool :=
  match v with
  | JNull => false
  | JBool b => b
  | JNum n => negb (n =? 0)%Z
  | JStr s => negb (s =? "")%string
  | JArr l => match l with [] => false | _ => true end
  | JObj kv => match kv with [] => false | _ => true end
  end.

(** [a or b] *)
Definition py_or (a b : json) : json := if truthy a then a else b.

Fixpoint assoc (k : string) (kv : list (string * json)) : option json :=
  match kv with
  | [] => None
  | (k', v) :: rest => if (k' =? k)%string then Some v else assoc k rest
  end.

(** [d.get(k, default)]: only a dict has the method. *)
Definition get_default (d : json) (k : string) (default : json) : res json :=
  match d with
  | JObj kv => Ok (match assoc k kv with Some v => v | None => default end)
  | _ => Raise AttributeError
  end.

(** [d.get(k)] *)
Definition get (d : json) (k : string) : res json := get_default d k JNull.

(** [d[k]] for a string key [k] *)
Definition item (d : json) (k : string) : res json :=
  match d with
  | JObj kv => match assoc k kv with Some v => Ok v | None => Raise KeyError end
  | _ => Raise TypeError
  end.

(** [v[0]] *)
Definition item0 (v : json) : res json :=
  match v with
  | JArr (x :: _) => Ok x
  | JArr [] => Raise IndexError
  | JStr (String c _) => Ok (JStr (String c ""))
  | JStr "" => Raise IndexError
  | JObj _ => Raise KeyError
  | _ => Raise TypeError
  end.

(** The items a [for] loop sees: the elements of a list, the keys of a
    dict, the characters of a string. *)
Definition iter (v : json) : res (list json) :=
  match v with
  | JArr l => Ok l
  | JObj kv => Ok (map (fun p => JStr (fst p)) kv)
  | JStr s => Ok (map (fun c => JStr (String c "")) (list_ascii_of_string s))
  | _ => Raise TypeError
  end.

(** [==] on the hashable values, as a [set] compares its members:
    [True == 1] and [False == 0]. *)
Definition hash_eqb (a b : json) : bool :=
  match a, b with
  | JNull, JNull => true
  | JStr s, JStr t => (s =? t)%string
  | JNum n, JNum m => (n =? m)%Z
  | JBool x, JBool y => Bool.eqb x y
  | JBool x, JNum m | JNum m, JBool x => (m =? (if x then 1 else 0))%Z
  | _, _ => false
  end.

Definition hashable (v : json) : bool :=
  match v with JArr _ | JObj _ => false | _ => true end.

(** [v in seen] for a [set] kept as the list of its members. *)
Definition in_set (v : json) (seen : list json) : res bool :=
  if hashable v then Ok (existsb (hash_eqb v) seen) else Raise TypeError.

(** ** Strings

    A [str] is kept as the bytes of its UTF-8 encoding. *)

Definition code (c : ascii) : N := N_of_ascii c.

(** [str.lower] on the ASCII letters. *)
Definition lower_ascii (c : ascii) : ascii :=
  if ((65 <=? code c) && (code c <=? 90))%N then ascii_of_N (code c + 32) else c.

(** [str.lower].  ASCII letters are lowered and U+212A KELVIN SIGN
    (E2 84 AA) becomes [k]; every other character is kept as it is.  The
    script only compares the result with the ASCII words "digikey" and
    "datasheet". *)
Fixpoint lower (s : string) : string :=
  match s with
  | "" => ""
  | String c s' =>
      match s' with
      | String c1 (String c2 r) =>
          if ((code c =? 226) && (code c1 =? 132) && (code c2 =? 170))%N
          then String "k" (lower r)
          else String (lower_ascii c) (lower s')
      | _ => String (lower_ascii c) (lower s')
      end
  end.

Fixpoint is_prefix (p s : string) : bool :=
  match p, s with
  | "", _ => true
  | String a p', String b s' => Ascii.eqb a b && is_prefix p' s'
  | String _ _, "" => false
  end.

(** [needle in hay] for two strings *)
Fixpoint contains (needle hay : string) : bool :=
  is_prefix needle hay ||
  match hay with
  | "" => false
  | String _ hay' => contains needle hay'
  end.

(** One-byte whitespace of [str.isspace]: TAB..CR, FS..US, SPACE. *)
Definition space1 (c : ascii) : bool :=
  ((9 <=? code c) && (code c <=? 13) || (28 <=? code c) && (code c <=? 32))%N.

(** U+0085 and U+00A0: C2 85, C2 A0. *)
Definition space2 (a b : ascii) : bool :=
  ((code a =? 194) && ((code b =? 133) || (code b =? 160)))%N.

(** U+1680; U+2000..U+200A, U+2028, U+2029, U+202F; U+205F; U+3000. *)
Definition space3 (a b c : ascii) : bool :=
  ((code a =? 225) && (code b =? 154) && (code c =? 128)
   || (code a =? 226) && (code b =? 128)
      && ((128 <=? code c) && (code c <=? 138)
          || (code c =? 168) || (code c =? 169) || (code c =? 175))
   || (code a =? 226) && (code b =? 129) && (code c =? 159)
   || (code a =? 227) && (code b =? 128) && (code c =? 128))%N.

(** [str.lstrip()] *)
Fixpoint lstrip (s : string) : string :=
  match s with
  | "" => ""
  | String a s1 =>
      if space1 a then lstrip s1
      else match s1 with
           | String b s2 =>
               if space2 a b then lstrip s2
               else match s2 with
                    | String c s3 => if space3 a b c then lstrip s3 else s
                    | "" => s
                    end
           | "" => s
           end
  end.

(** [str.rstrip()], on the reversed byte list. *)
Fixpoint rstrip_rev (r : list ascii) : list ascii :=
  match r with
  | [] => []
  | c :: r1 =>
      if space1 c then rstrip_rev r1
      else match r1 with
           | b :: r2 =>
               if space2 b c then rstrip_rev r2
               else match r2 with
                    | a :: r3 => if space3 a b c then rstrip_rev r3 else r
                    | [] => r
                    end
           | [] => r
           end
  end.

Definition rstrip (s : string) : string :=
  string_of_list_ascii (rev (rstrip_rev (rev (list_ascii_of_string s)))).

(** [str.strip()] *)
Definition strip (s : string) : string := rstrip (lstrip s).

(** Every character of [s] is whitespace ([s.isspace()] or [s] empty). *)
Fixpoint all_space (s : string) : bool :=
  match s with
  | "" => true
  | String a s1 =>
      if space1 a then all_space s1
      else match s1 with
           | String b s2 =>
               if space2 a b then all_space s2
               else match s2 with
                    | String c s3 => space3 a b c && all_space s3
                    | "" => false
                    end
           | "" => false
           end
  end.

(** [v.strip()] and [v.lower()]: only a [str] has the methods. *)
Definition strip_method (v : json) : res string :=
  match v with JStr s => Ok (strip s) | _ => Raise AttributeError end.

Definition lower_method (v : json) : res string :=
  match v with JStr s => Ok (lower s) | _ => Raise AttributeError end.

(** ["k" in v] for a string [k] *)
Definition str_in (k : string) (v : json) : res bool :=
  match v with
  | JObj kv => Ok (match assoc k kv with Some _ => true | None => false end)
  | JArr l => Ok (existsb (hash_eqb (JStr k)) l)
  | JStr s => Ok (contains k s)
  | _ => Raise TypeError
  end.

End Py.
Import Py.

(* ===================================================================== *)
(** * The pure functions of the script                                    *)
(* ===================================================================== *)

(** The result of the inner loop of [pick_datasheet]: either the function
    returned from inside the loop, or the loop ran to its end and leaves
    the set [seen]. *)
Inductive scan_result : Type :=
| Returned (datasheet : json)
| Exhausted (seen : list json).

(** The body of [for doc in collection.get("documents") or []]. *)
Fixpoint scan_documents (collection : json) (docs : list json) (seen : list json)
  : res scan_result :=
  match docs with
  | [] => Ok (Exhausted seen)
  | doc :: rest =>
      url ← get doc "url";
      skip ← (if truthy url then in_set url seen else Ok true);
      if skip : bool then scan_documents collection rest seen
      else
        let seen := url :: seen in
        dname ← get doc "name";
        cname ← (if truthy dname then Ok dname else get collection "name");
        let name := py_or (py_or dname cname) (JStr "Document") in
        lowered ← lower_method name;
        if contains "datasheet" lowered
        then Ok (Returned (JObj [("name", name); ("url", url)]))
        else scan_documents collection rest seen
  end.

(** The body of [for collection in part.get("documentCollections") or []]. *)
Fixpoint scan_collections (collections : list json) (seen : list json) : res json :=
  match collections with
  | [] => Ok JNull
  | collection :: rest =>
      dv ← get collection "documents";
      docs ← iter (py_or dv (JArr []));
      r ← scan_documents collection docs seen;
      match r with
      | Returned d => Ok d
      | Exhausted seen => scan_collections rest seen
      end
  end.

Definition pick_datasheet (part : json) : res json :=
  bv ← get part "bestDatasheet";
  let best := py_or bv (JObj []) in
  u ← get best "url";
  if truthy u then
    n ← get best "name";
    u ← item best "url";
    Ok (JObj [("name", py_or n (JStr "Datasheet")); ("url", u)])
  else
    cv ← get part "documentCollections";
    collections ← iter (py_or cv (JArr []));
    scan_collections collections [].

(** The body of [for seller in sellers]. *)
Fixpoint any_digikey (sellers : list json) : res bool :=
  match sellers with
  | [] => Ok false
  | seller :: rest =>
      cv ← get (py_or seller (JObj [])) "company";
      let company := py_or cv (JObj []) in
      nv ← get_default company "name" (JStr "");
      stripped ← strip_method nv;
      if (lower stripped =? "digikey")%string then Ok true else any_digikey rest
  end.

Definition ensure_digikey_seller (part : json) : res bool :=
  sv ← get part "sellers";
  sellers ← iter (py_or sv (JArr []));
  any_digikey sellers.

(* ===================================================================== *)
(** * Files and directories                                               *)
(* ===================================================================== *)

Module Fs.

(** A [Path], as the list of its components below the root.  [base / name]
    appends one component: no name the script joins contains a separator
    (see [PARTS_names_plain]). *)
Abbreviation path := (list string).

Inductive node : Type :=
| File (content : list byte)
| Dir.

(** The directory tree: what is stored at each path.  The root always is a
    directory and is not stored. *)
Abbreviation tree := (gmap (list string) node).

Definition lookup_node (t : tree) (p : path) : option node :=
  match p with [] => Some Dir | _ => t !! p end.

(** [p.parent] *)
Definition parent (p : path) : path := removelast p.

(** [p.exists()] *)
Definition exists_ (t : tree) (p : path) : bool :=
  match lookup_node t p with Some _ => true | None => false end.

(** [p.stat().st_size]; what a directory reports depends on the platform
    and is the parameter [dir_size]. *)
Definition st_size (dir_size : nat) (t : tree) (p : path) : nat :=
  match lookup_node t p with
  | Some (File c) => length c
  | Some Dir => dir_size
  | None => 0
  end.

(** [os.mkdir] along the components [rest] below the directory [pre]:
    an existing directory is passed through ([exist_ok]), a missing one is
    created ([parents]), a regular file in the way raises. *)
Fixpoint mkdir_walk (t : tree) (pre rest : path) : res tree :=
  match rest with
  | [] => Ok t
  | c :: rest' =>
      let p := pre ++ [c] in
      match t !! p with
      | Some Dir => mkdir_walk t p rest'
      | Some (File _) =>
          Raise (match rest' with [] => FileExistsError | _ => NotADirectoryError end)
      | None => mkdir_walk (<[p := Dir]> t) p rest'
      end
  end.

(** [p.mkdir(parents=True, exist_ok=True)] *)
Definition mkdir_p (t : tree) (p : path) : res tree := mkdir_walk t [] p.

(** [p.open("wb")]: creates the file or truncates it.  The caller has just
    created the parent directory. *)
Definition open_wb (t : tree) (p : path) : res tree :=
  match lookup_node t p with
  | Some Dir => Raise IsADirectoryError
  | _ => Ok (<[p := File []]> t)
  end.

End Fs.
Import Fs.

(* ===================================================================== *)
(** * Effects                                                             *)
(* ===================================================================== *)

(** What [print] writes, line by line. *)
Inductive line : Type :=
| Saving (base_dir : path)
| Blank
| Header (mpn description : string)
| FetchFailed (exc : exn)
| NoDigikey
| DatasheetLine (changed : bool) (file_path : path)
| DatasheetFailed (exc : exn)
| NoDatasheet
| KicadLine (changed : bool) (cad_path : path)
| KicadFailed (exc : exn)
| KicadUnavailable.

(** What the script does to the outside world, in the order it does it.
    [PostJson] keeps the [mpn] variable of the query and the token of the
    [Authorization: Bearer ...] header, [None] when the header is not sent. *)
Inductive event : Type :=
| Print (l : line)
| Sleep (milliseconds : nat)
| PostForm (url : string) (data : list (string * string))
| PostJson (url : string) (mpn : string) (authorization : option json)
| Get (url : json)
| OpenWrite (destination : path).

(** What [resp.read(65536)] gives, call after call; reading past the end of
    the list gives [b""]. *)
Inductive read : Type :=
| Chunk (data : list byte)
| ReadError (e : exn).

(** The outside world the script talks to.  Every answer may depend on all
    that happened before (the trace).
    - [urlopen_form], [urlopen_json]: [urlopen] followed by [json.load];
    - [urlopen_get]: [Request(url)] and [urlopen] for a download, giving the
      reads of the response body;
    - [url_suffix]: [Path(urllib.parse.urlparse(url).path).suffix];
    - [dir_size]: the [st_size] of a directory;
    - [stdout]: what writing a line to the standard output raises, if it
      raises (UnicodeEncodeError when the terminal cannot encode the line,
      BrokenPipeError ...). *)
Record Env : Type := {
  urlopen_form : list event -> string -> list (string * string) -> res json;
  urlopen_json : list event -> string -> string -> option json -> res json;
  urlopen_get : list event -> json -> res (list read);
  url_suffix : json -> res string;
  dir_size : nat;
  stdout : list event -> line -> option exn
}.

Record World : Type := { fs : tree; trace : list event }.

(** Computations: they may change the world and raise. *)
Definition M (A : Type) : Type := World -> res A * World.

#[global] Instance M_ret : MRet M := fun _ a w => (Ok a, w).
#[global] Instance M_bind : MBind M := fun _ _ f m w =>
  match m w with
  | (Ok a, w') => f a w'
  | (Raise e, w') => (Raise e, w')
  end.

Definition lift {A} (r : res A) : M A := fun w => (r, w).
Definition raise {A} (e : exn) : M A := fun w => (Raise e, w).
Definition emit (e : event) : M unit :=
  fun w => (Ok tt, {| fs := fs w; trace := trace w ++ [e] |}).

(** [try: m except Exception as exc: ...] *)
Definition try {A} (m : M A) : M (A + exn) := fun w =>
  match m w with
  | (Ok a, w') => (Ok (inl a), w')
  | (Raise e, w') => (Ok (inr e), w')
  end.

Definition GRAPHQL_ENDPOINT : string := "https://api.nexar.com/graphql".
Definition TOKEN_ENDPOINT : string := "https://identity.nexar.com/connect/token".
Definition DEFAULT_SCOPE : string := "supply.domain".

Record PartSpec : Type := { mpn : string; folder : string; description : string }.

Definition PARTS : list PartSpec := [
  {| mpn := "ESP32-S3-WROOM-1-N16R8"; folder := "esp32 module";
     description := "ESP32-S3 module, 16 MB Flash + 8 MB PSRAM" |};
  {| mpn := "CL10B104KB8NNNC"; folder := "decoupling capacitor";
     description := "0.1 µF 0603 X7R decoupling capacitor" |};
  {| mpn := "CL10A106KP8NNNC"; folder := "local bulk capacitor";
     description := "10 µF 6.3 V X5R local bulk capacitor" |};
  {| mpn := "RC0603FR-0710KL"; folder := "enable resistor";
     description := "10 kΩ 0603 EN pull-up resistor" |};
  {| mpn := "KMR211GLFS"; folder := "reset switch";
     description := "C&K KMR2 4×4 mm tactile reset switch" |};
  {| mpn := "RC0603FR-07100RL"; folder := "reset resistor";
     description := "100 Ω 0603 EN series resistor" |};
  {| mpn := "B2B-PH-SM4-TB"; folder := "battery connector";
     description := "JST-PH 2-pin battery connector" |};
  {| mpn := "NCP15XH103F03RC"; folder := "battery ntc";
     description := "Murata 10 kΩ NTC thermistor for battery sensing" |};
  {| mpn := "0ZCJ0100FF2E"; folder := "battery polyfuse";
     description := "Bel Fuse 1 A battery polyfuse" |};
  {| mpn := "0ZCJ0150FF2C"; folder := "vbus polyfuse";
     description := "Bel Fuse 1.5 A VBUS polyfuse" |};
  {| mpn := "LQH32PN2R2NN0"; folder := "vbus inductor";
     description := "Murata 2.2 µH 2 A inductor" |};
  {| mpn := "RC0805FR-075K1L"; folder := "usb cc resistor";
     description := "5.1 kΩ 1% USB-C CC pull-down resistor" |};
  {| mpn := "PESD5V0S4UD"; folder := "usb esd array";
     description := "Nexperia 4-channel USB ESD array" |};
  {| mpn := "GRM31CR60J226ME"; folder := "buck output capacitor";
     description := "Murata 22 µF 10 V X5R capacitor" |};
  {| mpn := "GRM32DR61E106KA12L"; folder := "power bulk capacitor";
     description := "Murata 10 µF 25 V X5R bulk capacitor" |};
  {| mpn := "SMAJ5.0A"; folder := "vbus tvs diode";
     description := "Littelfuse SMAJ5.0A TVS diode" |};
  {| mpn := "EEE-FC1A101P"; folder := "display amp bulk capacitor";
     description := "Panasonic 100 µF 10 V electrolytic capacitor" |};
  {| mpn := "RC0603FR-0747KL"; folder := "spi pullup resistor";
     description := "47 kΩ 0603 pull-up resistor" |};
  {| mpn := "LTST-C190KRKT"; folder := "indicator led";
     description := "Lite-On LTST-C190 series 0603 LED" |};
  {| mpn := "RC0603FR-071K0L"; folder := "led resistor";
     description := "1 kΩ 0603 LED current-limiting resistor" |};
  {| mpn := "CT11025.0F260"; folder := "tact switch";
     description := "CIT 6×6 mm tact switch, 5 mm actuator" |};
  {| mpn := "MAX98357AETE+T"; folder := "class d amplifier";
     description := "Analog Devices MAX98357A I²S Class-D amplifier" |};
  {| mpn := "CVS-1508"; folder := "speakers";
     description := "SameSky 15 mm 8 Ω speaker" |};
  {| mpn := "RC0603FR-0710RL"; folder := "zobel resistor";
     description := "10 Ω 0603 resistor for Zobel network" |};
  {| mpn := "C0603C474K4RACTU"; folder := "zobel capacitor";
     description := "Kemet 0.47 µF 0603 capacitor" |};
  {| mpn := "PESD5V0S1UL"; folder := "sd esd protection";
     description := "Nexperia PESD5V0S1UL ESD protection diode" |}
].

(** The command line after [parse_args]: [--output], [--token] (or
    NEXAR_ACCESS_TOKEN), [--client-id] (or NEXAR_CLIENT_ID),
    [--client-secret] (or NEXAR_CLIENT_SECRET), [--skip-cad].  These are all
    the options the parser declares. *)
Record Args : Type := {
  output : path;
  token : option string;
  client_id : option string;
  client_secret : option string;
  skip_cad : bool
}.

(** [not v] for an optional string argument *)
Definition missing (v : option string) : bool :=
  match v with None => true | Some s => (s =? "")%string end.

(** What the token block of [main] ends in: a token, or [parser.error]. *)
Inductive acquired : Type :=
| Token (t : json)
| UsageError.

(** How the process ends: [sys.exit(status)], or an exception nobody caught
    (a traceback, exit status 1). *)
Inductive outcome : Type :=
| Exit (status : Z)
| Uncaught (e : exn).

Section Script.

Variable E : Env.

(** [print(...)]: the line is written, or writing it raises and nothing
    is written. *)
Definition print (l : line) : M unit := fun w =>
  match stdout E (trace w) l with
  | None => (Ok tt, {| fs := fs w; trace := trace w ++ [Print l] |})
  | Some e => (Raise e, w)
  end.

Definition http_post_form (url : string) (data : list (string * string)) : M json :=
  fun w => (urlopen_form E (trace w) url data,
            {| fs := fs w; trace := trace w ++ [PostForm url data] |}).

(** The payload is [{"query": query, "variables": {"mpn": mpn}}] with the
    fixed query text. *)
Definition http_post_json (url : string) (mpn : string) (token : json) : M json :=
  fun w =>
    let authorization := if truthy token then Some token else None in
    (urlopen_json E (trace w) url mpn authorization,
     {| fs := fs w; trace := trace w ++ [PostJson url mpn authorization] |}).

Definition fetch_token (client_id client_secret scope : string) : M json :=
  response ← http_post_form TOKEN_ENDPOINT
               [("grant_type", "client_credentials");
                ("client_id", client_id);
                ("client_secret", client_secret);
                ("scope", scope)];
  token ← lift (get response "access_token");
  if truthy token then mret token
  else raise (RuntimeError (TokenMissing response)).

(** Lines 261-266 of [fetch_part]: the part in the response [data]. *)
Definition part_of_response (mpn : string) (data : json) : res json :=
  has_errors ← str_in "errors" data;
  if has_errors : bool then
    errors ← item data "errors";
    Raise (RuntimeError (QueryError mpn errors))
  else
    d ← get_default data "data" (JObj []);
    s ← get_default d "supSearch" (JObj []);
    rv ← get s "results";
    let results := py_or rv (JArr []) in
    if truthy results then
      r0 ← item0 results;
      item r0 "part"
    else Raise (RuntimeError (NoResult mpn)).

Definition fetch_part (token : json) (mpn : string) : M json :=
  data ← http_post_json GRAPHQL_ENDPOINT mpn token;
  lift (part_of_response mpn data).

(** The [while True] loop of [download_file]: the bytes written and the
    exception that ended the loop, if one did. *)
Fixpoint read_all (reads : list read) (written : list byte) : list byte * option exn :=
  match reads with
  | [] => (written, None)
  | Chunk [] :: _ => (written, None)
  | Chunk chunk :: rest => read_all rest (written ++ chunk)
  | ReadError e :: _ => (written, Some e)
  end.

(** [except urllib.error.URLError as exc: raise RuntimeError(...) from exc] *)
Definition reraise (url : json) (e : exn) : exn :=
  if is_URLError e then RuntimeError (DownloadFailed url e) else e.

Definition download_file (url : json) (destination : path) (overwrite : bool) : M bool :=
  fun w =>
    if exists_ (fs w) destination && negb overwrite
       && (0 <? st_size (dir_size E) (fs w) destination)%nat
    then (Ok false, w)
    else
      match mkdir_p (fs w) (parent destination) with
      | Raise e => (Raise e, w)
      | Ok t1 =>
          let tr1 := trace w ++ [Get url] in
          match urlopen_get E (trace w) url with
          | Raise e => (Raise (reraise url e), {| fs := t1; trace := tr1 |})
          | Ok reads =>
              match open_wb t1 destination with
              | Raise e => (Raise (reraise url e), {| fs := t1; trace := tr1 |})
              | Ok _ =>
                  let '(written, failure) := read_all reads [] in
                  let w' := {| fs := <[destination := File written]> t1;
                               trace := tr1 ++ [OpenWrite destination] |} in
                  match failure with
                  | None => (Ok true, w')
                  | Some e => (Raise (reraise url e), w')
                  end
              end
          end
      end.

(** [p.mkdir(parents=True, exist_ok=True)] as a computation *)
Definition mkdir (p : path) : M unit := fun w =>
  match mkdir_p (fs w) p with
  | Ok t => (Ok tt, {| fs := t; trace := trace w |})
  | Raise e => (Raise e, w)
  end.

(** Lines 344-350 of [main]: the token. *)
Definition main_token (args : Args) : M acquired :=
  if missing (token args) then
    if missing (client_id args) || missing (client_secret args)
    then mret UsageError
    else
      t ← fetch_token (default "" (client_id args)) (default "" (client_secret args))
            DEFAULT_SCOPE;
      mret (Token t)
  else mret (Token (JStr (strip (default "" (token args))))).

(** Lines 374-385 of [main]: the datasheet.  The report of a download is
    printed inside the [try]. *)
Definition main_datasheet (spec : PartSpec) (target_dir : path) (part : json) : M unit :=
  datasheet ← lift (pick_datasheet part);
  if truthy datasheet then
    let filename := mpn spec +:+ " datasheet.pdf" in
    let file_path := target_dir ++ [filename] in
    r ← try (url ← lift (item datasheet "url");
             changed ← download_file url file_path false;
             print (DatasheetLine changed file_path));
    match r with
    | inl _ => mret tt
    | inr exc => print (DatasheetFailed exc)
    end
  else print NoDatasheet.

(** Lines 388-391 of [main]: whether there is a KiCad library to fetch, and
    if so its URL and the extension of the file to write; [None] stands for
    the [else] branch. *)
Definition cad_request (part : json) : res (option (json * string)) :=
  cv ← get part "cad";
  let cad_info := py_or cv (JObj []) in
  kicad_url ← get cad_info "downloadUrlKicad";
  has_kicad ← get cad_info "hasKicad";
  if truthy has_kicad && truthy kicad_url then
    suffix ← url_suffix E kicad_url;
    Ok (Some (kicad_url, if (suffix =? "")%string then ".zip" else suffix))
  else Ok None.

(** Lines 387-400 of [main]: the KiCad library.  The report of a download
    is printed inside the [try]. *)
Definition main_cad (spec : PartSpec) (target_dir : path) (part : json) : M unit :=
  request ← lift (cad_request part);
  match request with
  | Some (kicad_url, ext) =>
      let cad_path := target_dir ++ [mpn spec +:+ " kicad" +:+ ext] in
      r ← try (changed ← download_file kicad_url cad_path false;
               print (KicadLine changed cad_path));
      match r with
      | inl _ => mret tt
      | inr exc => print (KicadFailed exc)
      end
  | None => print KicadUnavailable
  end.

(** Lines 367-403 of [main]: what the loop body does with a part it has
    resolved. *)
Definition main_assets (base_dir : path) (skip : bool) (spec : PartSpec) (part : json)
  : M unit :=
  digi_available ← lift (ensure_digikey_seller part);
  (if digi_available : bool then mret tt else print NoDigikey);;
  let target_dir := base_dir ++ [folder spec] in
  mkdir target_dir;;
  main_datasheet spec target_dir part;;
  (if skip then mret tt else main_cad spec target_dir part);;
  print Blank;;
  emit (Sleep 500).

(** Lines 359-403 of [main]: the body of [for spec in PARTS]. *)
Definition main_part (token : json) (base_dir : path) (skip : bool) (spec : PartSpec)
  : M unit :=
  print (Header (mpn spec) (description spec));;
  r ← try (fetch_part token (mpn spec));
  match r with
  | inr exc => print (FetchFailed exc);; print Blank
  | inl part => main_assets base_dir skip spec part
  end.

(** [for spec in parts] *)
Fixpoint main_loop (token : json) (base_dir : path) (skip : bool) (parts : list PartSpec)
  : M unit :=
  match parts with
  | [] => mret tt
  | spec :: rest =>
      main_part token base_dir skip spec;;
      main_loop token base_dir skip rest
  end.

(** [main] over the catalog [parts], up to its exit status: 2 from
    [parser.error], 0 from [return 0]. *)
Definition main_body (parts : list PartSpec) (args : Args) : M Z :=
  acquired ← main_token args;
  match acquired with
  | UsageError => mret 2%Z
  | Token token =>
      mkdir (output args);;
      print (Saving (output args));;
      print Blank;;
      main_loop token (output args) (skip_cad args) parts;;
      mret 0%Z
  end.

(** [sys.exit(main())] *)
Definition main_on (parts : list PartSpec) (args : Args) (w : World) : outcome * World :=
  match main_body parts args w with
  | (Ok status, w') => (Exit status, w')
  | (Raise e, w') => (Uncaught e, w')
  end.

(** The script: [main] over [PARTS]. *)
Definition main : Args -> World -> outcome * World := main_on PARTS.

End Script.

(* ===================================================================== *)
(** * Part records and the selection policy of the specification          *)
(* ===================================================================== *)

(** A document reference as the query returns it: [name] and [url], each a
    string or [null]. *)
Record DocumentReference : Type := {
  doc_name : option string;
  doc_url : option string
}.

Record DocumentCollection : Type := {
  col_name : option string;
  col_documents : option (list DocumentReference)
}.

(** The part of a part record the selector reads, and the fields it does
    not read. *)
Record PartRecord : Type := {
  best_datasheet : option DocumentReference;
  document_collections : option (list DocumentCollection);
  other_fields : list (string * json)
}.

Definition encode_string (o : option string) : json :=
  match o with Some s => JStr s | None => JNull end.

Definition encode_document (d : DocumentReference) : json :=
  JObj [("name", encode_string (doc_name d)); ("url", encode_string (doc_url d))].

Definition encode_collection (c : DocumentCollection) : json :=
  JObj [("name", encode_string (col_name c));
        ("documents",
         match col_documents c with
         | Some docs => JArr (map encode_document docs)
         | None => JNull
         end)].

(** The dict [fetch_part] returns for a part record. *)
Definition encode_part (p : PartRecord) : json :=
  JObj (("bestDatasheet",
         match best_datasheet p with
         | Some d => encode_document d
         | None => JNull
         end)
        :: ("documentCollections",
            match document_collections p with
            | Some cs => JArr (map encode_collection cs)
            | None => JNull
            end)
        :: other_fields p).

(** What the selector returns: a display name and a URL, or nothing. *)
Definition encode_selection (r : option (string * string)) : json :=
  match r with
  | Some (name, url) => JObj [("name", JStr name); ("url", JStr url)]
  | None => JNull
  end.

(** A missing text is an empty text. *)
Definition text (o : option string) : string := default "" o.

(** The part carries a "best datasheet" reference with a non-empty URL. *)
Definition usable_best (p : PartRecord) : option DocumentReference :=
  match best_datasheet p with
  | Some d => if (text (doc_url d) =? "")%string then None else Some d
  | None => None
  end.

(** The documents in the order of the scan: collections in their order,
    documents in their order within each, each with its collection. *)
Definition scan_order (p : PartRecord) : list (DocumentCollection * DocumentReference) :=
  flat_map (fun c => map (pair c) (default [] (col_documents c)))
           (default [] (document_collections p)).

(** The name of a document, "falling back to the collection's name if the
    document's own name is empty". *)
Definition display_name (cd : DocumentCollection * DocumentReference) : string :=
  if (text (doc_name (snd cd)) =? "")%string then text (col_name (fst cd))
  else text (doc_name (snd cd)).

(** The name "contains the case-insensitive substring datasheet". *)
Definition mentions_datasheet (name : string) : bool :=
  contains "datasheet" (lower name).

(** Modelled on the words of the specification, 4.3 step 2: "Maintain a set
    of URLs already seen; skip documents with an empty or already-seen URL.
    Return the first remaining document whose name contains the
    case-insensitive substring datasheet.  If no such document exists,
    return none." *)
Fixpoint first_remaining (seen : gset string)
    (docs : list (DocumentCollection * DocumentReference)) : option (string * string) :=
  match docs with
  | [] => None
  | cd :: rest =>
      let url := text (doc_url (snd cd)) in
      if (url =? "")%string || bool_decide (url ∈ seen) then first_remaining seen rest
      else if mentions_datasheet (display_name cd) then Some (display_name cd, url)
      else first_remaining ({[url]} ∪ seen) rest
  end.

(** Modelled on the words of the specification, 4.3: the selection policy
    "in strict priority order (first satisfied wins)". *)
Definition select_datasheet (p : PartRecord) : option (string * string) :=
  match usable_best p with
  | Some d =>
      Some (if (text (doc_name d) =? "")%string then "Datasheet" else text (doc_name d),
            text (doc_url d))
  | None => first_remaining ∅ (scan_order p)
  end.

(* ===================================================================== *)
(** * Vocabulary of the statements                                        *)
(* ===================================================================== *)

(** The set [seen] of the loop and the set of the specification hold the
    same URLs. *)
Definition same_urls (seen : list json) (S : gset string) : Prop :=
  forall u, existsb (hash_eqb (JStr u)) seen = bool_decide (u ∈ S).

(** The part numbers queried, in the order of the queries. *)
Fixpoint queried (evs : list event) : list string :=
  match evs with
  | [] => []
  | PostJson _ m _ :: rest => m :: queried rest
  | _ :: rest => queried rest
  end.

(** The number of downloads started. *)
Fixpoint gets (evs : list event) : nat :=
  match evs with
  | [] => 0
  | Get _ :: rest => S (gets rest)
  | _ :: rest => gets rest
  end.

(** The number of pacing delays. *)
Fixpoint sleeps (evs : list event) : nat :=
  match evs with
  | [] => 0
  | Sleep _ :: rest => S (sleeps rest)
  | _ :: rest => sleeps rest
  end.

(** A computation started in a tree satisfying [I] ends, with a result or
    an exception, in a tree satisfying [I]; [Q] holds of how it ended and of
    the events it added to the trace. *)
Definition hoare {A : Type} (I : tree -> Prop) (m : M A) (Q : res A -> list event -> Prop) : Prop :=
  forall w, I (fs w) ->
    exists evs, trace (m w).2 = trace w ++ evs /\ I (fs (m w).2) /\ Q (m w).1 evs.

Section Cases.

Variable E : Env.

(** The destination has to be fetched: it is missing, or empty, or the
    caller asked to overwrite it. *)
Definition stale (w : World) (destination : path) (overwrite : bool) : Prop :=
  exists_ (fs w) destination && negb overwrite
  && (0 <? st_size (dir_size E) (fs w) destination)%nat = false.

(** All the ways a call of [download_file] can go. *)
Inductive download_case (url : json) (destination : path) (overwrite : bool)
    (w : World) : res bool -> World -> Prop :=
| dl_present :
    exists_ (fs w) destination = true -> overwrite = false ->
    (0 < st_size (dir_size E) (fs w) destination)%nat ->
    download_case url destination overwrite w (Ok false) w
| dl_mkdir_failed e :
    stale w destination overwrite ->
    mkdir_p (fs w) (parent destination) = Raise e ->
    download_case url destination overwrite w (Raise e) w
| dl_not_connected t1 e :
    stale w destination overwrite ->
    mkdir_p (fs w) (parent destination) = Ok t1 ->
    urlopen_get E (trace w) url = Raise e ->
    download_case url destination overwrite w (Raise (reraise url e))
      {| fs := t1; trace := trace w ++ [Get url] |}
| dl_not_opened t1 reads e :
    stale w destination overwrite ->
    mkdir_p (fs w) (parent destination) = Ok t1 ->
    urlopen_get E (trace w) url = Ok reads ->
    open_wb t1 destination = Raise e ->
    download_case url destination overwrite w (Raise (reraise url e))
      {| fs := t1; trace := trace w ++ [Get url] |}
| dl_written t1 reads written failure :
    stale w destination overwrite ->
    mkdir_p (fs w) (parent destination) = Ok t1 ->
    urlopen_get E (trace w) url = Ok reads ->
    lookup_node t1 destination <> Some Dir ->
    read_all reads [] = (written, failure) ->
    download_case url destination overwrite w
      (match failure with None => Ok true | Some e => Raise (reraise url e) end)
      {| fs := <[destination := File written]> t1;
         trace := (trace w ++ [Get url]) ++ [OpenWrite destination] |}.

(** What [main] does with a part outside of any [try]: the seller check,
    the selection of the datasheet and, unless [--skip-cad], the reading of
    the CAD data. *)
Definition well_shaped (skip : bool) (part : json) : Prop :=
  (exists b, ensure_digikey_seller part = Ok b)
  /\ (exists d, pick_datasheet part = Ok d)
  /\ (skip = false -> exists request, cad_request E part = Ok request).

End Cases.

(** The same, when all that matters is that every added event satisfies [P]. *)
Definition emits {A : Type} (I : tree -> Prop) (P : event -> Prop) (m : M A) : Prop :=
  hoare I m (fun _ evs => Forall P evs).

(** The [Authorization] header [http_post_json] sends for a token. *)
Definition bearer (token : json) : option json :=
  if truthy token then Some token else None.

(** What is sent with a token that is empty: no token request, and no
    [Authorization] header on any query. *)
Definition anonymous (ev : event) : Prop :=
  match ev with
  | PostForm _ _ => False
  | PostJson _ _ authorization => authorization = None
  | _ => True
  end.

(** The same, when what matters is that the computation does not raise and
    that its result satisfies [R]. *)
Definition total {A : Type} (I : tree -> Prop) (m : M A) (R : A -> Prop) : Prop :=
  hoare I m (fun r _ => exists a, r = Ok a /\ R a).

Definition not_a_query (ev : event) : Prop :=
  match ev with PostJson _ _ _ => False | _ => True end.

(** No regular file sits where a target folder of the catalog, or a
    directory above it, has to be. *)
Definition unobstructed (base_dir : path) (parts : list PartSpec) (t : tree) : Prop :=
  forall spec, spec ∈ parts ->
  forall q c, q `prefix_of` (base_dir ++ [folder spec]) -> t !! q <> Some (File c).

(** The lines [main] prints inside a [try]: the reports of a download. *)
Definition inside_try (l : line) : bool :=
  match l with
  | DatasheetLine _ _ | KicadLine _ _ => true
  | _ => false
  end.

(** The standard output takes every line that [main] prints outside of a
    [try]. *)
Definition printable (E : Env) : Prop :=
  forall history l, inside_try l = false -> stdout E history l = None.

(** The world before the script starts. *)
Definition start (t : tree) : World := {| fs := t; trace := [] |}.

(* ===================================================================== *)
(** * Concrete worlds                                                     *)
(* ===================================================================== *)

(** A service described by what it answers to a query and to a download,
    whatever happened before.  The token endpoint is not reachable, and the
    standard output takes every line. *)
Definition service (query : string -> res json) (download : json -> res (list read)) : Env :=
  {| urlopen_form := fun _ _ _ => Raise (URLError "unreachable");
     urlopen_json := fun _ _ m _ => query m;
     urlopen_get := fun _ u => download u;
     url_suffix := fun _ => Ok ".zip";
     dir_size := 4096;
     stdout := fun _ _ => None |}.

(** The answer of the query endpoint for one part. *)
Definition answer (part : json) : json :=
  JObj [("data", JObj [("supSearch", JObj [("results", JArr [JObj [("part", part)]])])])].

Definition pdf : list byte := [x25; x50; x44; x46].

(** A part with a DigiKey seller, a best datasheet and no CAD data. *)
Definition plain_part : json :=
  JObj [("mpn", JStr "X");
        ("sellers", JArr [JObj [("company", JObj [("name", JStr "DigiKey")])]]);
        ("bestDatasheet", JObj [("name", JStr "Datasheet"); ("url", JStr "https://d/x.pdf")]);
        ("documentCollections", JArr []);
        ("cad", JNull)].

(** Every query is answered with [plain_part], every download with a body
    of four bytes. *)
Definition healthy : Env :=
  service (fun _ => Ok (answer plain_part)) (fun _ => Ok [Chunk pdf]).

(** Text that an ASCII codec encodes: every byte is below 128. *)
Fixpoint ascii_text (s : string) : bool :=
  match s with
  | EmptyString => true
  | String a s' => (nat_of_ascii a <? 128)%nat && ascii_text s'
  end.

(** The service of [healthy] behind a standard output that encodes ASCII
    only: printing the header of an entry whose text has another character
    raises. *)
Definition ascii_terminal : Env :=
  {| urlopen_form := urlopen_form healthy;
     urlopen_json := urlopen_json healthy;
     urlopen_get := urlopen_get healthy;
     url_suffix := url_suffix healthy;
     dir_size := dir_size healthy;
     stdout := fun _ l =>
       match l with
       | Header m d =>
           if ascii_text m && ascii_text d then None
           else Some (OtherError "UnicodeEncodeError")
       | _ => None
       end |}.

(** Every download is answered with an empty body. *)
Definition empty_bodies : Env :=
  service (fun _ => Ok (answer plain_part)) (fun _ => Ok []).

(** No query gets through. *)
Definition offline : Env :=
  service (fun _ => Raise (URLError "unreachable")) (fun _ => Raise (URLError "unreachable")).

(** The example of the specification, 8 "Fallback scan". *)
Definition fallback_part : PartRecord :=
  {| best_datasheet := None;
     document_collections :=
       Some [ {| col_name := Some "Design";
                 col_documents := Some [ {| doc_name := Some "Schematic"; doc_url := Some "https://d/s" |};
                                         {| doc_name := Some "Footprint"; doc_url := Some "https://d/f" |} ] |};
              {| col_name := Some "Documents";
                 col_documents := Some [ {| doc_name := Some "Datasheet"; doc_url := Some "https://d/d" |} ] |} ];
     other_fields := [] |}.

(** The example of the specification, 8 "Priority order". *)
Definition priority_part : PartRecord :=
  {| best_datasheet := Some {| doc_name := None; doc_url := Some "https://d/best" |};
     document_collections :=
       Some [ {| col_name := Some "Documents";
                 col_documents := Some [ {| doc_name := Some "Datasheet Rev B"; doc_url := Some "https://d/b" |} ] |} ];
     other_fields := [] |}.

(** The example of the specification, 8 "De-duplication", with a third
    document behind the two that share a URL. *)
Definition duplicate_part : PartRecord :=
  {| best_datasheet := None;
     document_collections :=
       Some [ {| col_name := Some "Design";
                 col_documents := Some [ {| doc_name := Some "Schematic"; doc_url := Some "https://d/1" |} ] |};
              {| col_name := Some "Documents";
                 col_documents := Some [ {| doc_name := Some "Datasheet"; doc_url := Some "https://d/1" |};
                                         {| doc_name := Some "DATASHEET (old)"; doc_url := Some "https://d/2" |} ] |} ];
     other_fields := [] |}.

(** A command line with an explicit token. *)
Definition with_token : Args :=
  {| output := ["components"]; token := Some "secret"; client_id := None;
     client_secret := None; skip_cad := false |}.

(** The output directory exists, and a regular file sits where the folder
    of the first catalog entry has to be. *)
Definition blocked : tree :=
  {[ ["components"] := Dir; ["components"; "esp32 module"] := File pdf ]}.

(** A part whose only seller has no company name ([null]). *)
Definition nameless_seller_part : json :=
  JObj [("mpn", JStr "X");
        ("sellers", JArr [JObj [("company", JObj [("name", JNull)])]]);
        ("bestDatasheet", JObj [("name", JStr "Datasheet"); ("url", JStr "https://d/x.pdf")]);
        ("documentCollections", JArr []);
        ("cad", JNull)].

Definition nameless_sellers : Env :=
  service (fun _ => Ok (answer nameless_seller_part)) (fun _ => Ok [Chunk pdf]).

(** The datasheet of the first catalog entry is there already. *)
Definition stocked : tree :=
  {[ ["components"] := Dir;
     ["components"; "esp32 module"] := Dir;
     ["components"; "esp32 module"; "ESP32-S3-WROOM-1-N16R8 datasheet.pdf"] := File pdf ]}.

(** A command line without a token: with a client id only, and with a
    client id and a client secret. *)
Definition no_credentials : Args :=
  {| output := ["components"]; token := None; client_id := Some "id";
     client_secret := None; skip_cad := false |}.

Definition with_client : Args :=
  {| output := ["components"]; token := None; client_id := Some "id";
     client_secret := Some "hunter2"; skip_cad := false |}.

(** A token of two spaces, a tab and a newline. *)
Definition blank_token : Args :=
  {| output := ["components"];
     token := Some (String " " (String " " (String (ascii_of_N 9) (String (ascii_of_N 10) ""))));
     client_id := None; client_secret := None; skip_cad := false |}.

(** The token endpoint refuses the client: its answer has no token. *)
Definition refused : Env :=
  {| urlopen_form := fun _ _ _ => Ok (JObj [("error", JStr "invalid_client")]);
     urlopen_json := fun _ _ _ _ => Raise (URLError "unreachable");
     urlopen_get := fun _ _ => Raise (URLError "unreachable");
     url_suffix := fun _ => Ok ".zip";
     dir_size := 4096;
     stdout := fun _ _ => None |}.

(** A part with a DigiKey seller, a best datasheet and a KiCad library. *)
Definition library_part : json :=
  JObj [("mpn", JStr "X");
        ("sellers", JArr [JObj [("company", JObj [("name", JStr "DigiKey")])]]);
        ("bestDatasheet", JObj [("name", JStr "Datasheet"); ("url", JStr "https://d/x.pdf")]);
        ("documentCollections", JArr []);
        ("cad", JObj [("hasKicad", JBool true);
                      ("downloadUrlKicad", JStr "https://d/x.zip")])].

(** The query for the second catalog entry times out, and no download gets
    through. *)
Definition flaky : Env :=
  service (fun m => if (m =? "CL10B104KB8NNNC")%string
                    then Raise (URLError "timed out")
                    else Ok (answer library_part))
          (fun _ => Raise (URLError "unreachable")).

(** The second entry of the catalog. *)
Definition capacitor : PartSpec :=
  {| mpn := "CL10B104KB8NNNC";
     folder := "decoupling capacitor";
     description := "0.1 µF 0603 X7R decoupling capacitor" |}.

(** The number of reports of a failed datasheet download. *)
Fixpoint datasheet_failures (evs : list event) : nat :=
  match evs with
  | [] => 0
  | Print (DatasheetFailed _) :: rest => S (datasheet_failures rest)
  | _ :: rest => datasheet_failures rest
  end.

(** The number of reports of a failed download of a KiCad library. *)
Fixpoint kicad_failures (evs : list event) : nat :=
  match evs with
  | [] => 0
  | Print (KicadFailed _) :: rest => S (kicad_failures rest)
  | _ :: rest => kicad_failures rest
  end.

(* ===================================================================== *)
(** * Further vocabulary: sellers, events of a run                        *)
(* ===================================================================== *)

(** A seller as the query returns it: [null], a seller without company,
    or a company whose name is a string or [null]. *)
Inductive Seller : Type :=
| SellerNull
| CompanyNull
| CompanyNamed (name : string)
| CompanyNameNull.

Definition encode_seller (s : Seller) : json :=
  match s with
  | SellerNull => JNull
  | CompanyNull => JObj [("company", JNull)]
  | CompanyNamed n => JObj [("company", JObj [("name", JStr n)])]
  | CompanyNameNull => JObj [("company", JObj [("name", JNull)])]
  end.

(** The company is DigiKey, whatever the case and the blanks around. *)
Definition is_digikey (s : Seller) : bool :=
  match s with
  | CompanyNamed n => (lower (strip n) =? "digikey")%string
  | _ => false
  end.

Definition name_is_null (s : Seller) : bool :=
  match s with CompanyNameNull => true | _ => false end.

(** The number of reports of a failed resolution. *)
Fixpoint failures (evs : list event) : nat :=
  match evs with
  | [] => 0
  | Print (FetchFailed _) :: rest => S (failures rest)
  | _ :: rest => failures rest
  end.

(** Events of the loop body other than the pacing delay and the report of
    a failed resolution. *)
Definition ordinary (ev : event) : Prop :=
  match ev with
  | Sleep _ | Print (FetchFailed _) => False
  | _ => True
  end.

(** A line about the KiCad library. *)
Definition cad_line (l : line) : bool :=
  match l with
  | KicadLine _ _ | KicadFailed _ | KicadUnavailable => true
  | _ => false
  end.

(** The whole body is there: chunks that are not empty. *)
Definition body (chunks : list (list byte)) : list read := map Chunk chunks.

Definition not_a_transfer (ev : event) : Prop :=
  match ev with Get _ => False | _ => True end.

(** The query endpoint answers every query with [data]. *)
Definition replying (data : json) : Env :=
  service (fun _ => Ok data) (fun _ => Ok [Chunk pdf]).

(** The token endpoint grants a token. *)
Definition granting : Env :=
  {| urlopen_form := fun _ _ _ =>
       Ok (JObj [("access_token", JStr " tok "); ("expires_in", JNum 86400)]);
     urlopen_json := fun _ _ _ _ => Ok (answer plain_part);
     urlopen_get := fun _ _ => Ok [Chunk pdf];
     url_suffix := fun _ => Ok ".zip";
     dir_size := 4096;
     stdout := fun _ _ => None |}.

(** Every download breaks off after the first chunk. *)
Definition interrupted : Env :=
  service (fun _ => Ok (answer plain_part))
          (fun _ => Ok (body [pdf] ++ ReadError (OtherError "IncompleteRead") :: [])).

(** A part with a KiCad library. *)
Definition cad_part : json :=
  JObj [("cad", JObj [("hasKicad", JBool true);
                      ("downloadUrlKicad", JStr "https://c/x.zip")])].

(** The output directory with a file of the user in it. *)
Definition lived_in : tree :=
  {[ ["components"] := Dir; ["components"; "notes.txt"] := File [] ]}.
(* ===================================================================== *)
(** * Selection: [pick_datasheet]                                         *)
(* ===================================================================== *)

Section Selection.

Lemma truthy_encode_string (o : option string) :
  truthy (encode_string o) = negb (text o =? "")%string.
Proof. destruct o as [s|]; reflexivity. Qed.

Lemma text_empty_dec (o : option string) :
  {text o = ""} + {exists a s, o = Some (String a s)}.
Proof.
  destruct o as [[|a s]|]; [left | right | left]; eauto.
Qed.

(** The name the loop computes is the display name of the specification,
    except that it reads "Document" where the specification has no name at
    all; neither mentions a datasheet. *)
Lemma loop_name (c : DocumentCollection) (d : DocumentReference) :
  let name := py_or (py_or (encode_string (doc_name d)) (encode_string (col_name c)))
                    (JStr "Document") in
  exists s, name = JStr s
    /\ contains "datasheet" (lower s) = mentions_datasheet (display_name (c, d))
    /\ (mentions_datasheet (display_name (c, d)) = true -> s = display_name (c, d)).
Proof.
  unfold display_name, mentions_datasheet, py_or; simpl.
  destruct (text_empty_dec (doc_name d)) as [Hd | (a & s & Hd)].
  - rewrite !truthy_encode_string, Hd; simpl.
    destruct (text_empty_dec (col_name c)) as [Hc | (b & t & Hc)].
    + rewrite !truthy_encode_string, Hc; simpl.
      exists "Document". split; [reflexivity|]. split; [reflexivity|discriminate].
    + rewrite Hc; simpl. exists (String b t). auto.
  - rewrite Hd; simpl. exists (String a s). auto.
Qed.

Lemma same_urls_empty : same_urls [] ∅.
Proof. intros u. reflexivity. Qed.

Lemma same_urls_add seen S s :
  same_urls seen S -> same_urls (JStr s :: seen) ({[s]} ∪ S).
Proof.
  intros H u. simpl. rewrite H.
  destruct (String.eqb_spec u s) as [->|Hne]; simpl.
  - symmetry. apply bool_decide_eq_true, elem_of_union_l, elem_of_singleton. reflexivity.
  - apply bool_decide_ext. rewrite elem_of_union, elem_of_singleton. tauto.
Qed.

Lemma scan_documents_refines (c : DocumentCollection) (docs : list DocumentReference) :
  forall seen S tail, same_urls seen S ->
  match scan_documents (encode_collection c) (map encode_document docs) seen with
  | Ok (Returned d) =>
      exists r, first_remaining S (map (pair c) docs ++ tail) = Some r
                /\ d = encode_selection (Some r)
  | Ok (Exhausted seen') =>
      exists S', same_urls seen' S'
                 /\ first_remaining S (map (pair c) docs ++ tail) = first_remaining S' tail
  | Raise _ => False
  end.
Proof.
  induction docs as [|d docs IH]; intros seen S tail HR.
  - simpl. eauto.
  - cbn [map app scan_documents first_remaining snd].
    change (get (encode_document d) "url") with (Ok (encode_string (doc_url d))).
    cbn [mbind res_bind].
    rewrite truthy_encode_string.
    destruct (text_empty_dec (doc_url d)) as [Hu | (a & u & Hu)].
    + rewrite Hu. cbn. apply IH, HR.
    + rewrite Hu. change (text (Some (String a u))) with (String a u).
      cbn [negb String.eqb orb encode_string in_set hashable].
      cbn [mbind res_bind]. rewrite HR.
      destruct (bool_decide (String a u ∈ S)); [apply IH, HR|].
      change (get (encode_document d) "name") with (Ok (encode_string (doc_name d))).
      cbn [mbind res_bind].
      change (get (encode_collection c) "name") with (Ok (encode_string (col_name c))).
      assert (Hc : (if truthy (encode_string (doc_name d))
                    then Ok (encode_string (doc_name d))
                    else Ok (encode_string (col_name c)))
                   = Ok (if truthy (encode_string (doc_name d))
                         then encode_string (doc_name d) else encode_string (col_name c)))
        by (destruct (truthy _); reflexivity).
      rewrite Hc; clear Hc. cbn [mbind res_bind].
      destruct (loop_name c d) as (s & Hs & Hm & Hn).
      assert (Hor : py_or (py_or (encode_string (doc_name d))
                     (if truthy (encode_string (doc_name d))
                      then encode_string (doc_name d) else encode_string (col_name c)))
                     (JStr "Document") = JStr s).
      { rewrite <- Hs. unfold py_or. destruct (truthy (encode_string (doc_name d))); reflexivity. }
      rewrite Hor. cbn [lower_method mbind res_bind]. rewrite Hm.
      destruct (mentions_datasheet (display_name (c, d))) eqn:Hmen.
      * eexists; split; [reflexivity|]. rewrite (Hn eq_refl). reflexivity.
      * apply IH. apply same_urls_add, HR.
Qed.

Lemma iter_documents (c : DocumentCollection) :
  iter (py_or (match col_documents c with
               | Some docs => JArr (map encode_document docs)
               | None => JNull
               end) (JArr []))
  = Ok (map encode_document (default [] (col_documents c))).
Proof. destruct (col_documents c) as [[|d docs]|]; reflexivity. Qed.

Lemma scan_collections_refines (cs : list DocumentCollection) :
  forall seen S, same_urls seen S ->
  scan_collections (map encode_collection cs) seen
  = Ok (encode_selection
          (first_remaining S
             (flat_map (fun c => map (pair c) (default [] (col_documents c))) cs))).
Proof.
  induction cs as [|c cs IH]; intros seen S HR; [reflexivity|].
  cbn [map flat_map scan_collections].
  change (get (encode_collection c) "documents")
    with (Ok (match col_documents c with
              | Some docs => JArr (map encode_document docs)
              | None => JNull
              end)).
  cbn [mbind res_bind]. rewrite iter_documents. cbn [mbind res_bind].
  pose proof (scan_documents_refines c (default [] (col_documents c)) seen S
                (flat_map (fun c => map (pair c) (default [] (col_documents c))) cs) HR)
    as Hin.
  destruct (scan_documents _ _ _) as [[d|seen']|e]; cbn [mbind res_bind].
  - destruct Hin as (r & -> & ->). reflexivity.
  - destruct Hin as (S' & HR' & ->). apply IH, HR'.
  - destruct Hin.
Qed.

Lemma iter_collections (p : PartRecord) :
  iter (py_or (match document_collections p with
               | Some cs => JArr (map encode_collection cs)
               | None => JNull
               end) (JArr []))
  = Ok (map encode_collection (default [] (document_collections p))).
Proof. destruct (document_collections p) as [[|c cs]|]; reflexivity. Qed.

(** What the specification's scan selects is the first document carrying
    its URL, and the URL is not empty. *)
Lemma first_remaining_first_occurrence
    (docs : list (DocumentCollection * DocumentReference)) :
  forall S r, first_remaining S docs = Some r ->
  exists i cd,
    docs !! i = Some cd
    /\ r = (display_name cd, text (doc_url (snd cd)))
    /\ mentions_datasheet (display_name cd) = true
    /\ text (doc_url (snd cd)) <> ""
    /\ (text (doc_url (snd cd)) ∉ S)
    /\ forall j cd', (j < i)%nat -> docs !! j = Some cd' ->
         text (doc_url (snd cd')) <> text (doc_url (snd cd)).
Proof.
  induction docs as [|cd0 docs IH]; intros S r H; [discriminate|].
  cbn [first_remaining] in H.
  destruct (String.eqb_spec (text (doc_url (snd cd0))) "") as [He|Hne]; cbn [orb] in H.
  - destruct (IH _ _ H) as (i & cd & Hi & Hr & Hm & Hu & HS & Hfirst).
    exists (Datatypes.S i), cd. repeat split; auto.
    intros [|j] cd' Hj Hl; cbn in Hl.
    + injection Hl as <-. congruence.
    + apply (Hfirst j); [lia|exact Hl].
  - destruct (bool_decide_reflect (text (doc_url (snd cd0)) ∈ S)) as [Hin|Hnin].
    + destruct (IH _ _ H) as (i & cd & Hi & Hr & Hm & Hu & HS & Hfirst).
      exists (Datatypes.S i), cd. repeat split; auto.
      intros [|j] cd' Hj Hl; cbn in Hl.
      * injection Hl as <-. intros Heq. apply HS. rewrite <- Heq. exact Hin.
      * apply (Hfirst j); [lia|exact Hl].
    + destruct (mentions_datasheet (display_name cd0)) eqn:Hm0.
      * injection H as <-. exists 0%nat, cd0. repeat split; auto.
        intros j cd' Hj; lia.
      * destruct (IH _ _ H) as (i & cd & Hi & Hr & Hm & Hu & HS & Hfirst).
        exists (Datatypes.S i), cd. repeat split; auto; [set_solver|].
        intros [|j] cd' Hj Hl; cbn in Hl.
        -- injection Hl as <-. set_solver.
        -- apply (Hfirst j); [lia|exact Hl].
Qed.

(** C4.  Selection priority: for every part record whose "best datasheet"
    reference has a non-empty URL, [pick_datasheet] returns that reference
    (its name, or "Datasheet" when its name is empty, and its URL),
    whatever the document collections and the other fields contain. *)
Theorem pick_datasheet_best_first (p : PartRecord) (d : DocumentReference) :
  best_datasheet p = Some d ->
  text (doc_url d) <> "" ->
  pick_datasheet (encode_part p)
  = Ok (JObj [("name", JStr (if (text (doc_name d) =? "")%string
                             then "Datasheet" else text (doc_name d)));
              ("url", JStr (text (doc_url d)))]).
Proof.
  intros Hb Hu. unfold pick_datasheet, encode_part. rewrite Hb.
  change (get (JObj _) "bestDatasheet") with (Ok (encode_document d)).
  cbn [mbind res_bind].
  change (py_or (encode_document d) (JObj [])) with (encode_document d).
  change (get (encode_document d) "url") with (Ok (encode_string (doc_url d))).
  cbn [mbind res_bind]. rewrite truthy_encode_string.
  destruct (String.eqb_spec (text (doc_url d)) "") as [He|_]; [contradiction|].
  cbn [negb].
  change (get (encode_document d) "name") with (Ok (encode_string (doc_name d))).
  change (item (encode_document d) "url") with (Ok (encode_string (doc_url d))).
  cbn [mbind res_bind]. unfold py_or. rewrite truthy_encode_string.
  destruct (doc_url d) as [u|]; [|contradiction].
  destruct (doc_name d) as [[|a n]|]; reflexivity.
Qed.

(** C5.  Fallback scan: for every part record without a usable "best
    datasheet" URL, [pick_datasheet] returns what the scan of the
    specification returns: collections in their order, documents in their
    order, the first document that is not skipped and whose name (the
    collection's name when its own is empty) contains "datasheet" in any
    case, or [None] when there is none. *)
Theorem pick_datasheet_fallback_scan (p : PartRecord) :
  usable_best p = None ->
  pick_datasheet (encode_part p)
  = Ok (encode_selection (first_remaining ∅ (scan_order p))).
Proof.
  intros Hb. unfold pick_datasheet, encode_part.
  change (get (JObj _) "bestDatasheet")
    with (Ok (match best_datasheet p with
              | Some d => encode_document d
              | None => JNull
              end)).
  cbn [mbind res_bind].
  assert (Hurl : exists best,
            py_or (match best_datasheet p with
                   | Some d => encode_document d
                   | None => JNull
                   end) (JObj []) = best
            /\ exists u, get best "url" = Ok u /\ truthy u = false).
  { unfold usable_best in Hb. destruct (best_datasheet p) as [d|].
    - eexists; split; [reflexivity|]. exists (encode_string (doc_url d)).
      split; [reflexivity|]. rewrite truthy_encode_string.
      destruct (text (doc_url d) =? "")%string; [reflexivity|discriminate].
    - eexists; split; [reflexivity|]. exists JNull. split; reflexivity. }
  destruct Hurl as (best & -> & u & -> & Hu). cbn [mbind res_bind]. rewrite Hu.
  change (get (JObj _) "documentCollections")
    with (Ok (match document_collections p with
              | Some cs => JArr (map encode_collection cs)
              | None => JNull
              end)).
  cbn [mbind res_bind]. rewrite iter_collections. cbn [mbind res_bind].
  apply scan_collections_refines, same_urls_empty.
Qed.

(** C6.  De-duplication: what the fallback scan of [pick_datasheet] returns
    is a document of the scan whose URL is not empty and differs from the
    URL of every document scanned before it; so among the documents that
    share a URL, whatever their collections and names, only the first one
    scanned can be selected. *)
Theorem pick_datasheet_first_of_its_url (p : PartRecord) (name url : json) :
  usable_best p = None ->
  pick_datasheet (encode_part p) = Ok (JObj [("name", name); ("url", url)]) ->
  exists i cd,
    scan_order p !! i = Some cd
    /\ name = JStr (display_name cd)
    /\ url = JStr (text (doc_url (snd cd)))
    /\ text (doc_url (snd cd)) <> ""
    /\ forall j cd', (j < i)%nat -> scan_order p !! j = Some cd' ->
         text (doc_url (snd cd')) <> text (doc_url (snd cd)).
Proof.
  intros Hb Hpick.
  assert (Hscan : scan_collections
                    (map encode_collection (default [] (document_collections p))) []
                  = Ok (JObj [("name", name); ("url", url)])).
  { rewrite <- Hpick. unfold pick_datasheet, encode_part.
    change (get (JObj _) "bestDatasheet")
      with (Ok (match best_datasheet p with
                | Some d => encode_document d
                | None => JNull
                end)).
    cbn [mbind res_bind]. unfold usable_best in Hb.
    destruct (best_datasheet p) as [d|].
    - change (py_or (encode_document d) (JObj [])) with (encode_document d).
      change (get (encode_document d) "url") with (Ok (encode_string (doc_url d))).
      cbn [mbind res_bind]. rewrite truthy_encode_string.
      destruct (text (doc_url d) =? "")%string; [|discriminate]. cbn [negb].
      change (get (JObj _) "documentCollections")
        with (Ok (match document_collections p with
                  | Some cs => JArr (map encode_collection cs)
                  | None => JNull
                  end)).
      cbn [mbind res_bind]. rewrite iter_collections. reflexivity.
    - change (get (JObj _) "documentCollections")
        with (Ok (match document_collections p with
                  | Some cs => JArr (map encode_collection cs)
                  | None => JNull
                  end)).
      cbn. rewrite iter_collections. reflexivity. }
  rewrite (scan_collections_refines _ [] ∅ same_urls_empty) in Hscan.
  fold (scan_order p) in Hscan.
  destruct (first_remaining ∅ (scan_order p)) as [[n u]|] eqn:Hfr; [|discriminate].
  cbn in Hscan. injection Hscan as <- <-.
  destruct (first_remaining_first_occurrence _ _ _ Hfr)
    as (i & cd & Hi & Hr & _ & Hu & _ & Hfirst).
  injection Hr as -> ->. exists i, cd. repeat split; auto.
Qed.

End Selection.

Lemma pick_datasheet_best_first_witness :
  pick_datasheet (encode_part priority_part)
  = Ok (JObj [("name", JStr "Datasheet"); ("url", JStr "https://d/best")]).
Proof.
  apply (pick_datasheet_best_first priority_part
           {| doc_name := None; doc_url := Some "https://d/best" |});
    [reflexivity|discriminate].
Defined.

Lemma pick_datasheet_fallback_scan_witness :
  pick_datasheet (encode_part fallback_part)
  = Ok (encode_selection (first_remaining ∅ (scan_order fallback_part))).
Proof. apply (pick_datasheet_fallback_scan fallback_part). reflexivity. Defined.

(** The scan of the example selects the document of the second collection. *)
Lemma fallback_part_selection :
  pick_datasheet (encode_part fallback_part)
  = Ok (JObj [("name", JStr "Datasheet"); ("url", JStr "https://d/d")]).
Proof. reflexivity. Qed.

Lemma pick_datasheet_first_of_its_url_witness :
  exists i cd,
    scan_order duplicate_part !! i = Some cd
    /\ JStr "DATASHEET (old)" = JStr (display_name cd)
    /\ JStr "https://d/2" = JStr (text (doc_url (snd cd)))
    /\ text (doc_url (snd cd)) <> ""
    /\ forall j cd', (j < i)%nat -> scan_order duplicate_part !! j = Some cd' ->
         text (doc_url (snd cd')) <> text (doc_url (snd cd)).
Proof.
  apply (pick_datasheet_first_of_its_url duplicate_part
           (JStr "DATASHEET (old)") (JStr "https://d/2")); reflexivity.
Defined.

(* ===================================================================== *)
(** * The directory tree                                                  *)
(* ===================================================================== *)

Section Tree.

(** [mkdir] only ever adds directories, at paths that were free, between
    the directory it starts from and the one it is asked for. *)
Lemma mkdir_walk_lookup (rest : path) :
  forall (t t' : tree) (pre : path),
  mkdir_walk t pre rest = Ok t' ->
  forall p : path,
    t' !! p = t !! p
    \/ (t !! p = None /\ t' !! p = Some Dir
        /\ p `prefix_of` (pre ++ rest) /\ (length pre < length p)%nat).
Proof.
  induction rest as [|c rest IH]; intros t t' pre H p.
  - injection H as <-. now left.
  - cbn [mkdir_walk] in H.
    assert (Hlen : forall q : path,
               q `prefix_of` ((pre ++ [c]) ++ rest) /\ (length (pre ++ [c]) < length q)%nat ->
               q `prefix_of` (pre ++ c :: rest) /\ (length pre < length q)%nat).
    { intros q [Hq Hl]. rewrite <- app_assoc in Hq. rewrite length_app in Hl.
      cbn in *. split; [exact Hq|lia]. }
    destruct (t !! (pre ++ [c])) as [[b|]|] eqn:Hp; [discriminate| |].
    + destruct (IH _ _ _ H p) as [Heq|(Hn & Hd & Hq)]; [now left|].
      right. repeat split; try tauto; apply Hlen; tauto.
    + destruct (IH _ _ _ H p) as [Heq|(Hn & Hd & Hq)].
      * destruct (decide (pre ++ [c] = p)) as [<-|Hne].
        -- right. rewrite Heq, lookup_insert_eq. repeat split; auto.
           ++ exists rest. now rewrite <- app_assoc.
           ++ rewrite length_app. cbn. lia.
        -- left. rewrite Heq. now apply lookup_insert_ne.
      * destruct (decide (pre ++ [c] = p)) as [<-|Hne].
        -- rewrite lookup_insert_eq in Hn. discriminate.
        -- rewrite lookup_insert_ne in Hn by assumption.
           right. repeat split; try tauto; apply Hlen; tauto.
Qed.

Lemma mkdir_p_lookup (t t' : tree) (target p : path) :
  mkdir_p t target = Ok t' ->
  t' !! p = t !! p
  \/ (t !! p = None /\ t' !! p = Some Dir /\ p `prefix_of` target).
Proof.
  intros H. destruct (mkdir_walk_lookup _ _ _ _ H p) as [?|(?&?&?&?)]; [now left|].
  right. auto.
Qed.

(** What is there stays there. *)
Lemma mkdir_p_keeps (t t' : tree) (target p : path) (n : node) :
  mkdir_p t target = Ok t' -> t !! p = Some n -> t' !! p = Some n.
Proof.
  intros H Hp. destruct (mkdir_p_lookup _ _ _ p H) as [->|(Hn & _)]; congruence.
Qed.

Lemma parent_length (p : path) : length (parent p) = pred (length p).
Proof.
  unfold parent. induction p as [|a [|b p] IH]; try reflexivity.
  change (removelast (a :: b :: p)) with (a :: removelast (b :: p)).
  cbn [length]. rewrite IH. reflexivity.
Qed.

(** Creating the parent directory of [p] does not touch [p]. *)
Lemma mkdir_parent_lookup (t t' : tree) (p : path) :
  mkdir_p t (parent p) = Ok t' -> t' !! p = t !! p.
Proof.
  intros H. destruct (mkdir_walk_lookup _ _ _ _ H p) as [?|(_ & _ & Hpre & Hlen)]; [assumption|].
  apply prefix_length in Hpre. cbn in Hpre, Hlen. rewrite parent_length in Hpre. lia.
Qed.

(** [mkdir] succeeds unless a regular file is in the way. *)
Lemma mkdir_walk_succeeds (rest : path) :
  forall (t : tree) (pre : path),
  (forall q c, q `prefix_of` (pre ++ rest) -> t !! q <> Some (File c)) ->
  exists t', mkdir_walk t pre rest = Ok t'.
Proof.
  induction rest as [|c rest IH]; intros t pre H; [eexists; reflexivity|].
  cbn [mkdir_walk].
  assert (Hpre : (pre ++ [c]) `prefix_of` (pre ++ c :: rest))
    by (exists rest; now rewrite <- app_assoc).
  destruct (t !! (pre ++ [c])) as [[b|]|] eqn:Hp.
  - exfalso. exact (H _ _ Hpre Hp).
  - apply IH. intros q b Hq. apply H. now rewrite <- app_assoc in Hq.
  - apply IH. intros q b Hq. rewrite <- app_assoc in Hq.
    destruct (decide (pre ++ [c] = q)) as [<-|Hne].
    + rewrite lookup_insert_eq. discriminate.
    + rewrite lookup_insert_ne by assumption. now apply H.
Qed.

End Tree.

(* ===================================================================== *)
(** * The synchronizer: [download_file]                                   *)
(* ===================================================================== *)

Section Download.

Variable E : Env.

Lemma gets_app (a b : list event) : gets (a ++ b) = (gets a + gets b)%nat.
Proof.
  induction a as [|[] a IH]; cbn; auto.
Qed.

Lemma size_exists (n : nat) (t : tree) (p : path) :
  (0 < st_size n t p)%nat -> exists_ t p = true.
Proof.
  unfold st_size, exists_. destruct (lookup_node t p); [reflexivity|lia].
Qed.

(** The idempotence check: a destination that is there and not empty is
    left alone, and so is the rest of the world. *)
Lemma download_file_present (url : json) (destination : path) (w : World) :
  exists_ (fs w) destination = true ->
  (0 < st_size (dir_size E) (fs w) destination)%nat ->
  download_file E url destination false w = (Ok false, w).
Proof.
  intros He Hs. unfold download_file. rewrite He.
  apply Nat.ltb_lt in Hs. rewrite Hs. reflexivity.
Qed.

Lemma download_file_cases (url : json) (destination : path) (overwrite : bool) (w : World) :
  download_case E url destination overwrite w
    (download_file E url destination overwrite w).1
    (download_file E url destination overwrite w).2.
Proof.
  unfold download_file.
  destruct (exists_ (fs w) destination && negb overwrite
            && (0 <? st_size (dir_size E) (fs w) destination)%nat) eqn:Hstale.
  { apply andb_prop in Hstale as [Hstale Hs]. apply andb_prop in Hstale as [He Ho].
    destruct overwrite; [discriminate|].
    apply dl_present; auto. now apply Nat.ltb_lt. }
  destruct (mkdir_p (fs w) (parent destination)) as [t1|e] eqn:Hm;
    [|apply dl_mkdir_failed; assumption].
  destruct (urlopen_get E (trace w) url) as [reads|e] eqn:Hg;
    [|eapply dl_not_connected; eassumption].
  destruct (open_wb t1 destination) as [t2|e] eqn:Ho;
    [|eapply dl_not_opened; eassumption].
  destruct (read_all reads []) as [written failure] eqn:Hr.
  assert (Hd : lookup_node t1 destination <> Some Dir)
    by (unfold open_wb in Ho; intros Hd; rewrite Hd in Ho; discriminate).
  destruct failure as [e|];
    [exact (dl_written E url destination _ w t1 reads written (Some e) Hstale Hm Hg Hd Hr)
    |exact (dl_written E url destination _ w t1 reads written None Hstale Hm Hg Hd Hr)].
Qed.

(** C3, as amended.  With [overwrite=false], a destination that exists
    with non-zero size is reported as already present, nothing is
    transferred and nothing changes; so when a first call leaves the
    destination with non-zero size, a second call in succession transfers
    nothing, and the two calls together start one transfer if the first one
    fetched and none if the file had been there. *)
Theorem download_file_idempotent (url : json) (destination : path) (w : World) :
  (exists_ (fs w) destination = true ->
   (0 < st_size (dir_size E) (fs w) destination)%nat ->
   download_file E url destination false w = (Ok false, w))
  /\ (forall (changed : bool) (w1 : World),
        download_file E url destination false w = (Ok changed, w1) ->
        (0 < st_size (dir_size E) (fs w1) destination)%nat ->
        download_file E url destination false w1 = (Ok false, w1)
        /\ gets (trace w1) = (gets (trace w) + (if changed then 1 else 0))%nat).
Proof.
  split; [apply download_file_present|].
  intros changed w1 H Hs. split.
  - apply download_file_present; [eapply size_exists|]; eassumption.
  - pose proof (download_file_cases url destination false w) as Hc.
    rewrite H in Hc. cbn [fst snd] in Hc.
    inversion Hc as [ | | | |t1 reads written failure Hst Hm Hg Hd Hr Hres Hw]; subst.
    + lia.
    + destruct failure; [discriminate|]. injection Hres as <-.
      cbn [trace]. rewrite !gets_app. cbn. lia.
Qed.

(** C10.  Connection-failure atomicity: [download_file] opens the
    destination for writing only after the connection has given a
    response; so when the connection attempt fails, whatever the flag, the
    destination is as it was (not created, not truncated), and the only
    paths that changed are missing directories on the way to the parent of
    the destination, which now exist. *)
Theorem download_file_connection_failure
    (url : json) (destination : path) (overwrite : bool) (w : World) :
  let w' := (download_file E url destination overwrite w).2 in
  (forall evs, trace w' = trace w ++ evs -> OpenWrite destination ∈ evs ->
     evs = [Get url; OpenWrite destination]
     /\ exists reads, urlopen_get E (trace w) url = Ok reads)
  /\ (forall e, urlopen_get E (trace w) url = Raise e ->
        fs w' !! destination = fs w !! destination
        /\ (exists evs, trace w' = trace w ++ evs /\ OpenWrite destination ∉ evs)
        /\ (forall p : path,
              fs w' !! p = fs w !! p
              \/ (fs w !! p = None /\ fs w' !! p = Some Dir
                  /\ p `prefix_of` parent destination))).
Proof.
  cbn zeta.
  pose proof (download_file_cases url destination overwrite w) as Hc.
  destruct (download_file E url destination overwrite w) as [r w']. cbn [fst snd] in *.
  assert (Hnil : OpenWrite destination ∉ ([] : list event)) by apply not_elem_of_nil.
  assert (Hget : OpenWrite destination ∉ [Get url]).
  { intros Hin. apply list_elem_of_singleton in Hin. discriminate. }
  split.
  - intros evs Ht Hin.
    inversion Hc as [ |e' Hst Hm|t1 e' Hst Hm Hg' Hres Hw|t1 reads e' Hst Hm Hg'
                     |t1 reads wr f Hst Hm Hg']; subst; cbn [trace] in Ht.
    + assert (Hev : [] = evs) by (eapply app_inv_head; rewrite app_nil_r; exact Ht).
      subst evs. contradiction.
    + assert (Hev : [] = evs) by (eapply app_inv_head; rewrite app_nil_r; exact Ht).
      subst evs. contradiction.
    + apply app_inv_head in Ht as <-. contradiction.
    + apply app_inv_head in Ht as <-. contradiction.
    + rewrite <- app_assoc in Ht. apply app_inv_head in Ht as <-. eauto.
  - intros e Hg.
    inversion Hc as [ |e' Hst Hm|t1 e' Hst Hm Hg' Hres Hw|t1 reads e' Hst Hm Hg'
                     |t1 reads wr f Hst Hm Hg']; subst; try congruence.
    + split; [reflexivity|]. split; [|now left].
      exists []. now rewrite app_nil_r.
    + split; [reflexivity|]. split; [|now left].
      exists []. now rewrite app_nil_r.
    + cbn [fs trace]. split; [now apply mkdir_parent_lookup|]. split.
      * exists [Get url]. auto.
      * intros p. now apply mkdir_p_lookup.
Qed.

End Download.

(** A first call that receives an empty body leaves an empty file, and
    the second call fetches again: two calls, two transfers. *)
Lemma download_file_twice_empty_body :
  let url := JStr "https://d/x.pdf" in
  let destination := ["components"; "x"; "X datasheet.pdf"] in
  let first := download_file empty_bodies url destination false (start ∅) in
  let second := download_file empty_bodies url destination false first.2 in
  first.1 = Ok true
  /\ fs first.2 !! destination = Some (File [])
  /\ second.1 = Ok true
  /\ gets (trace second.2) = 2%nat.
Proof. vm_compute. repeat split; reflexivity. Qed.

Lemma download_file_idempotent_witness :
  let url := JStr "https://d/x.pdf" in
  let destination := ["components"; "x"; "X datasheet.pdf"] in
  let w1 := (download_file healthy url destination false (start ∅)).2 in
  download_file healthy url destination false w1 = (Ok false, w1)
  /\ (download_file healthy url destination false w1 = (Ok false, w1)
      /\ gets (trace w1) = 1%nat).
Proof.
  cbn zeta. split.
  - apply (proj1 (download_file_idempotent healthy (JStr "https://d/x.pdf")
                    ["components"; "x"; "X datasheet.pdf"] _));
      vm_compute; [reflexivity|lia].
  - apply (proj2 (download_file_idempotent healthy (JStr "https://d/x.pdf")
                    ["components"; "x"; "X datasheet.pdf"] (start ∅)) true);
      [vm_compute; reflexivity|vm_compute; lia].
Defined.

Lemma download_file_connection_failure_witness :
  let destination := ["components"; "x"; "X datasheet.pdf"] in
  let w' := (download_file offline (JStr "https://d/x.pdf") destination false
               (start stocked)).2 in
  fs w' !! destination = stocked !! destination
  /\ (exists evs, trace w' = [] ++ evs /\ OpenWrite destination ∉ evs)
  /\ (forall p : path,
        fs w' !! p = stocked !! p
        \/ (stocked !! p = None /\ fs w' !! p = Some Dir
            /\ p `prefix_of` parent destination)).
Proof.
  exact (proj2 (download_file_connection_failure offline (JStr "https://d/x.pdf")
                  ["components"; "x"; "X datasheet.pdf"] false (start stocked))
               (URLError "unreachable") eq_refl).
Defined.

(* ===================================================================== *)
(** * Reasoning about computations                                        *)
(* ===================================================================== *)

Section Hoare.

Context {A B : Type}.
Variable I : tree -> Prop.

Lemma hoare_ret (a : A) (Q : res A -> list event -> Prop) :
  Q (Ok a) [] -> hoare I (mret a) Q.
Proof. intros HQ w Hw. exists []. now rewrite app_nil_r. Qed.

Lemma hoare_lift (r : res A) (Q : res A -> list event -> Prop) :
  Q r [] -> hoare I (lift r) Q.
Proof. intros HQ w Hw. exists []. now rewrite app_nil_r. Qed.

Lemma hoare_raise (e : exn) (Q : res A -> list event -> Prop) :
  Q (Raise e) [] -> hoare I (raise e) Q.
Proof. intros HQ w Hw. exists []. now rewrite app_nil_r. Qed.

Lemma hoare_bind (m : M A) (f : A -> M B)
    (Q1 : res A -> list event -> Prop) (Q : res B -> list event -> Prop) :
  hoare I m Q1 ->
  (forall e evs, Q1 (Raise e) evs -> Q (Raise e) evs) ->
  (forall a e1, Q1 (Ok a) e1 -> hoare I (f a) (fun r e2 => Q r (e1 ++ e2))) ->
  hoare I (m ≫= f) Q.
Proof.
  intros Hm Hraise Hf w Hw. destruct (Hm w Hw) as (e1 & Ht & HI & HQ).
  unfold mbind, M_bind. destruct (m w) as [[a|e] w1]; cbn [fst snd] in *.
  - destruct (Hf a e1 HQ w1 HI) as (e2 & Ht2 & HI2 & HQ2).
    exists (e1 ++ e2). rewrite Ht2, Ht, app_assoc. auto.
  - exists e1. auto.
Qed.

Lemma hoare_try (m : M A) (Q : res (A + exn) -> list event -> Prop) :
  hoare I m (fun r evs => Q (Ok (match r with Ok a => inl a | Raise e => inr e end)) evs) ->
  hoare I (try m) Q.
Proof.
  intros Hm w Hw. destruct (Hm w Hw) as (evs & Ht & HI & HQ).
  unfold try. destruct (m w) as [[a|e] w1]; cbn [fst snd] in *; eauto.
Qed.

Lemma hoare_weaken (m : M A) (Q1 Q : res A -> list event -> Prop) :
  hoare I m Q1 -> (forall r evs, Q1 r evs -> Q r evs) -> hoare I m Q.
Proof.
  intros Hm HQ w Hw. destruct (Hm w Hw) as (evs & Ht & HI & H1). eauto.
Qed.

End Hoare.

Section HoareEffects.

Variable E : Env.
Variable I : tree -> Prop.

Lemma hoare_emit (e : event) (Q : res unit -> list event -> Prop) :
  Q (Ok tt) [e] -> hoare I (emit e) Q.
Proof. intros HQ w Hw. exists [e]. auto. Qed.

Lemma hoare_print (l : line) (Q : res unit -> list event -> Prop) :
  Q (Ok tt) [Print l] -> (forall e, Q (Raise e) []) -> hoare I (print E l) Q.
Proof.
  intros HQ Hraise w Hw. unfold print. destruct (stdout E (trace w) l) as [e|].
  - exists []. rewrite app_nil_r. cbn. auto.
  - exists [Print l]. cbn. auto.
Qed.

Lemma hoare_mkdir (p : path) (Q : res unit -> list event -> Prop) :
  (forall t, I t ->
     match mkdir_p t p with
     | Ok t' => I t' /\ Q (Ok tt) []
     | Raise e => Q (Raise e) []
     end) ->
  hoare I (mkdir p) Q.
Proof.
  intros H w Hw. exists []. rewrite app_nil_r. unfold mkdir.
  specialize (H _ Hw). destruct (mkdir_p (fs w) p); cbn; tauto.
Qed.

End HoareEffects.

(* ===================================================================== *)
(** * The orchestrator: what [main] emits                                 *)
(* ===================================================================== *)

Section Emits.

Variable E : Env.
Variable I : tree -> Prop.
Variable P : event -> Prop.

Lemma emits_ret {A : Type} (a : A) : emits I P (mret a).
Proof. apply hoare_ret. constructor. Qed.

Lemma emits_lift {A : Type} (r : res A) : emits I P (lift r).
Proof. apply hoare_lift. constructor. Qed.

Lemma emits_raise {A : Type} (e : exn) : emits I P (raise e : M A).
Proof. apply hoare_raise. constructor. Qed.

Lemma emits_emit (e : event) : P e -> emits I P (emit e).
Proof. intros He. apply hoare_emit. now repeat constructor. Qed.

Lemma emits_print (l : line) : P (Print l) -> emits I P (print E l).
Proof. intros He. apply hoare_print; [now repeat constructor|constructor]. Qed.

Lemma emits_bind {A B : Type} (m : M A) (f : A -> M B) :
  emits I P m -> (forall a, emits I P (f a)) -> emits I P (m ≫= f).
Proof.
  intros Hm Hf. eapply hoare_bind; [exact Hm|auto|].
  intros a e1 H1. eapply hoare_weaken; [apply Hf|].
  intros r evs H2. apply Forall_app; auto.
Qed.

Lemma emits_try {A : Type} (m : M A) : emits I P m -> emits I P (try m).
Proof. intros Hm. apply hoare_try. exact Hm. Qed.

Lemma emits_mkdir (p : path) :
  (forall t t', I t -> mkdir_p t p = Ok t' -> I t') -> emits I P (mkdir p).
Proof.
  intros H. apply hoare_mkdir. intros t Ht.
  destruct (mkdir_p t p) eqn:Hm; [split; [eauto|]|]; constructor.
Qed.

Lemma emits_http_post_json (url m : string) (token : json) :
  P (PostJson url m (bearer token)) -> emits I P (http_post_json E url m token).
Proof. intros HP w Hw. exists [PostJson url m (bearer token)]. now repeat constructor. Qed.

Lemma emits_http_post_form (url : string) (data : list (string * string)) :
  P (PostForm url data) -> emits I P (http_post_form E url data).
Proof. intros HP w Hw. exists [PostForm url data]. now repeat constructor. Qed.

Lemma emits_fetch_part (token : json) (m : string) :
  P (PostJson GRAPHQL_ENDPOINT m (bearer token)) -> emits I P (fetch_part E token m).
Proof.
  intros HP. unfold fetch_part.
  apply emits_bind; [now apply emits_http_post_json|intros data; apply emits_lift].
Qed.

(** What the loop body emits after the query, given what its downloads
    emit. *)
Lemma emits_main_assets (base_dir : path) (skip : bool) (spec : PartSpec) (part : json) :
  (forall l, P (Print l)) ->
  (forall n, P (Sleep n)) ->
  (forall t t', I t -> mkdir_p t (base_dir ++ [folder spec]) = Ok t' -> I t') ->
  (forall url name,
     emits I P (download_file E url (base_dir ++ [folder spec] ++ [name]) false)) ->
  emits I P (main_assets E base_dir skip spec part).
Proof.
  intros Hprint Hsleep Hmk Hdl. unfold main_assets.
  apply emits_bind; [apply emits_lift|intros digi].
  apply emits_bind; [destruct digi; [apply emits_ret|apply emits_print, Hprint]|intros _].
  apply emits_bind; [apply emits_mkdir, Hmk|intros _].
  apply emits_bind.
  { unfold main_datasheet.
    apply emits_bind; [apply emits_lift|intros datasheet].
    destruct (truthy datasheet); [|apply emits_print, Hprint].
    apply emits_bind.
    - apply emits_try, emits_bind; [apply emits_lift|intros url].
      apply emits_bind; [|intros changed; apply emits_print, Hprint].
      rewrite <- app_assoc. apply Hdl.
    - intros [u|exc]; [apply emits_ret|apply emits_print, Hprint]. }
  intros _. apply emits_bind.
  { destruct skip; [apply emits_ret|]. unfold main_cad.
    apply emits_bind; [apply emits_lift|intros [[kicad_url ext]|]];
      [|apply emits_print, Hprint].
    apply emits_bind.
    - apply emits_try, emits_bind; [|intros changed; apply emits_print, Hprint].
      rewrite <- app_assoc. apply Hdl.
    - intros [u|exc]; [apply emits_ret|apply emits_print, Hprint]. }
  intros _. apply emits_bind; [apply emits_print, Hprint|intros _].
  apply emits_emit, Hsleep.
Qed.

Lemma emits_main_part (token : json) (base_dir : path) (skip : bool) (spec : PartSpec) :
  (forall l, P (Print l)) ->
  (forall n, P (Sleep n)) ->
  P (PostJson GRAPHQL_ENDPOINT (mpn spec) (bearer token)) ->
  (forall t t', I t -> mkdir_p t (base_dir ++ [folder spec]) = Ok t' -> I t') ->
  (forall url name,
     emits I P (download_file E url (base_dir ++ [folder spec] ++ [name]) false)) ->
  emits I P (main_part E token base_dir skip spec).
Proof.
  intros Hprint Hsleep Hquery Hmk Hdl. unfold main_part.
  apply emits_bind; [apply emits_print, Hprint|intros _].
  apply emits_bind; [apply emits_try, emits_fetch_part, Hquery|intros [part|exc]].
  - now apply emits_main_assets.
  - apply emits_bind; [apply emits_print, Hprint|intros _; apply emits_print, Hprint].
Qed.

Lemma emits_main_loop (token : json) (base_dir : path) (skip : bool) (parts : list PartSpec) :
  (forall spec, spec ∈ parts -> emits I P (main_part E token base_dir skip spec)) ->
  emits I P (main_loop E token base_dir skip parts).
Proof.
  induction parts as [|spec rest IH]; intros H; [apply emits_ret|].
  cbn [main_loop]. apply emits_bind; [apply H; left|intros _].
  apply IH. intros s Hs. apply H. now right.
Qed.

(** A step that only adds events satisfying [P] in front of a computation
    keeps a postcondition that does not mind such events. *)
Lemma hoare_prefixed {A B : Type} (m : M A) (f : A -> M B)
    (Q : res B -> list event -> Prop) :
  emits I P m ->
  (forall a, hoare I (f a) Q) ->
  (forall e evs, Forall P evs -> Q (Raise e) evs) ->
  (forall r e1 e2, Forall P e1 -> Q r e2 -> Q r (e1 ++ e2)) ->
  hoare I (m ≫= f) Q.
Proof.
  intros Hm Hf Hraise Hclosed. eapply hoare_bind; [exact Hm|exact Hraise|].
  intros a e1 H1. eapply hoare_weaken; [apply Hf|]. intros r e2 H2. now apply Hclosed.
Qed.

End Emits.

(* ===================================================================== *)
(** * The whole run                                                       *)
(* ===================================================================== *)

Section Run.

Variable E : Env.

(** What a download emits, for an invariant that survives the creation of
    directories and the writing of the destination. *)
Lemma emits_download_file (I : tree -> Prop) (P : event -> Prop)
    (url : json) (destination : path) (overwrite : bool) :
  (forall t t', I t -> mkdir_p t (parent destination) = Ok t' -> I t') ->
  (forall t c, I t -> I (<[destination := File c]> t)) ->
  P (Get url) -> P (OpenWrite destination) ->
  emits I P (download_file E url destination overwrite).
Proof.
  intros Hmk Hins Hget Hopen w Hw.
  pose proof (download_file_cases E url destination overwrite w) as Hc.
  destruct (download_file E url destination overwrite w) as [r w']. cbn [fst snd] in *.
  inversion Hc; subst; cbn [fs trace].
  - exists []. rewrite app_nil_r. auto.
  - exists []. rewrite app_nil_r. auto.
  - exists [Get url]. eauto.
  - exists [Get url]. eauto.
  - exists [Get url; OpenWrite destination]. rewrite <- app_assoc. eauto 10.
Qed.

(** A file that is there and not empty stays as it is through any
    download without the override flag, and is not opened for writing. *)
Lemma emits_download_intact (p : path) (c : list byte) (url : json) (destination : path) :
  c <> [] ->
  emits (fun t => t !! p = Some (File c)) (fun ev => ev <> OpenWrite p)
        (download_file E url destination false).
Proof.
  intros Hc w Hw.
  pose proof (download_file_cases E url destination false w) as Hcase.
  destruct (download_file E url destination false w) as [r w']. cbn [fst snd] in *.
  inversion Hcase as [ |e Hst Hm|t1 e Hst Hm Hg|t1 reads e Hst Hm Hg Ho
                      |t1 reads written failure Hst Hm Hg Hd Hr]; subst; cbn [fs trace].
  - exists []. rewrite app_nil_r. auto.
  - exists []. rewrite app_nil_r. auto.
  - exists [Get url]. repeat split; [eapply mkdir_p_keeps; eassumption|].
    repeat constructor. discriminate.
  - exists [Get url]. repeat split; [eapply mkdir_p_keeps; eassumption|].
    repeat constructor. discriminate.
  - assert (Hne : destination <> p).
    { intros ->. pose proof (mkdir_p_keeps _ _ _ _ _ Hm Hw) as H1.
      destruct p as [|a p]; [now apply Hd|].
      unfold stale, exists_, st_size, lookup_node in Hst. rewrite Hw in Hst.
      destruct c; [congruence|discriminate Hst]. }
    exists [Get url; OpenWrite destination]. rewrite <- app_assoc.
    repeat split.
    + rewrite lookup_insert_ne by assumption. eapply mkdir_p_keeps; eassumption.
    + repeat constructor; [discriminate|congruence].
Qed.

Lemma emits_fetch_token (I : tree -> Prop) (P : event -> Prop) (i s scope : string) :
  (forall u d, P (PostForm u d)) -> emits I P (fetch_token E i s scope).
Proof.
  intros HP. unfold fetch_token.
  apply emits_bind; [apply emits_http_post_form, HP|intros response].
  apply emits_bind; [apply emits_lift|intros t].
  destruct (truthy t); [apply emits_ret|apply emits_raise].
Qed.

Lemma emits_main_token (I : tree -> Prop) (P : event -> Prop) (args : Args) :
  (forall u d, P (PostForm u d)) -> emits I P (main_token E args).
Proof.
  intros HP. unfold main_token.
  destruct (missing (token args)); [|apply emits_ret].
  destruct (_ || _); [apply emits_ret|].
  apply emits_bind; [now apply emits_fetch_token|intros t; apply emits_ret].
Qed.

(** What [main] emits once it has its token. *)
Lemma emits_main_after_token (I : tree -> Prop) (P : event -> Prop)
    (parts : list PartSpec) (args : Args) (token : json) :
  (forall l, P (Print l)) ->
  (forall n, P (Sleep n)) ->
  (forall m, P (PostJson GRAPHQL_ENDPOINT m (bearer token))) ->
  (forall t t' p, I t -> mkdir_p t p = Ok t' -> I t') ->
  (forall url destination, emits I P (download_file E url destination false)) ->
  emits I P (mkdir (output args);;
             print E (Saving (output args));;
             print E Blank;;
             main_loop E token (output args) (skip_cad args) parts;;
             mret 0%Z).
Proof.
  intros Hprint Hsleep Hquery Hmk Hdl.
  apply emits_bind; [apply emits_mkdir; eauto|intros _].
  apply emits_bind; [apply emits_print, Hprint|intros _].
  apply emits_bind; [apply emits_print, Hprint|intros _].
  apply emits_bind; [|intros _; apply emits_ret].
  apply emits_main_loop. intros spec _. apply emits_main_part; eauto.
Qed.

Lemma emits_main_body (I : tree -> Prop) (P : event -> Prop)
    (parts : list PartSpec) (args : Args) :
  (forall l, P (Print l)) ->
  (forall n, P (Sleep n)) ->
  (forall u d, P (PostForm u d)) ->
  (forall u m a, P (PostJson u m a)) ->
  (forall t t' p, I t -> mkdir_p t p = Ok t' -> I t') ->
  (forall url destination, emits I P (download_file E url destination false)) ->
  emits I P (main_body E parts args).
Proof.
  intros Hprint Hsleep Hform Hquery Hmk Hdl. unfold main_body.
  apply emits_bind; [now apply emits_main_token|intros [token|]]; [|apply emits_ret].
  now apply emits_main_after_token.
Qed.

Lemma main_on_world (parts : list PartSpec) (args : Args) (w : World) :
  (main_on E parts args w).2 = (main_body E parts args w).2.
Proof. unfold main_on. now destruct (main_body E parts args w) as [[?|?] ?]. Qed.

(** No run of the script touches a file that is there and not empty. *)
Lemma main_body_intact (parts : list PartSpec) (args : Args) (p : path) (c : list byte) :
  c <> [] ->
  emits (fun t => t !! p = Some (File c)) (fun ev => ev <> OpenWrite p)
        (main_body E parts args).
Proof.
  intros Hc. apply emits_main_body; try discriminate.
  - intros t t' q Ht Hm. eapply mkdir_p_keeps; eassumption.
  - intros url destination. now apply emits_download_intact.
Qed.

(** C8, as amended.  The command line has no flag to force a re-download:
    its options are [--output], [--token], [--client-id], [--client-secret]
    and [--skip-cad].  Under every configuration [main] calls the
    synchronizer with [overwrite=False]: a file that exists with non-zero
    size when the script starts is never opened for writing, and has the
    same content when the script ends. *)
Theorem main_never_fetches_again (args : Args) (w : World) (p : path) (c : list byte) :
  fs w !! p = Some (File c) ->
  c <> [] ->
  fs (main E args w).2 !! p = Some (File c)
  /\ exists evs, trace (main E args w).2 = trace w ++ evs /\ OpenWrite p ∉ evs.
Proof.
  intros Hp Hc. unfold main. rewrite main_on_world.
  destruct (main_body_intact PARTS args p c Hc w Hp) as (evs & Ht & Hfs & Hev).
  split; [exact Hfs|]. exists evs. split; [exact Ht|].
  intros Hin. rewrite Forall_forall in Hev. now apply (Hev _ Hin).
Qed.

End Run.

(** There is no configuration, and no state of the world, in which the
    script opens an existing non-empty file again. *)
Lemma no_force_redownload_configuration :
  ~ exists (E : Env) (args : Args) (t : tree) (p : path) (c : list byte),
      t !! p = Some (File c) /\ c <> []
      /\ OpenWrite p ∈ trace (main E args (start t)).2.
Proof.
  intros (E & args & t & p & c & Hp & Hc & Hin).
  unfold main in Hin. rewrite main_on_world in Hin.
  destruct (main_body_intact E PARTS args p c Hc (start t) Hp) as (evs & Ht & _ & Hev).
  rewrite Ht in Hin. cbn in Hin. rewrite Forall_forall in Hev. now apply (Hev _ Hin).
Qed.

(* ===================================================================== *)
(** * The token                                                           *)
(* ===================================================================== *)

Section Strip.

Lemma lstrip_all_space (n : nat) :
  forall s, (String.length s <= n)%nat -> all_space s = true -> lstrip s = "".
Proof.
  induction n as [|n IH]; intros s Hn Hs.
  - destruct s; [reflexivity|cbn in Hn; lia].
  - destruct s as [|a s1]; [reflexivity|].
    cbn [lstrip all_space] in *. cbn [String.length] in Hn.
    destruct (space1 a); [apply IH; [lia|assumption]|].
    destruct s1 as [|b s2]; [discriminate|].
    cbn [String.length] in Hn.
    destruct (space2 a b); [apply IH; [lia|assumption]|].
    destruct s2 as [|c s3]; [discriminate|].
    cbn [String.length] in Hn.
    apply andb_prop in Hs as [H3 Hs]. rewrite H3.
    apply IH; [lia|assumption].
Qed.

(** A string of whitespace strips to the empty string. *)
Lemma strip_all_space (s : string) : all_space s = true -> strip s = "".
Proof.
  intros H. unfold strip. rewrite (lstrip_all_space (String.length s) s); auto.
Qed.

End Strip.

Section Token.

Variable E : Env.

Lemma missing_some (t : string) : t <> "" -> missing (Some t) = false.
Proof. intros H. cbn. now apply String.eqb_neq. Qed.

(** C7.  Credential acquisition.  An explicit token is stripped and
    returned as it is, and nothing is sent to the service.  Without a
    token, the run ends before any entry is processed: with exit status 2
    when the client id or the client secret is missing as well, and with an
    uncaught [RuntimeError] when the token endpoint answers with an object
    that has no [access_token], or an empty one. *)
Theorem credential_acquisition (parts : list PartSpec) (args : Args) (w : World) :
  (forall t, token args = Some t -> t <> "" ->
     main_token E args w = (Ok (Token (JStr (strip t))), w))
  /\ (missing (token args) = true ->
      missing (client_id args) || missing (client_secret args) = true ->
      main_token E args w = (Ok UsageError, w)
      /\ main_on E parts args w = (Exit 2, w))
  /\ (forall i s fields,
        missing (token args) = true ->
        client_id args = Some i -> i <> "" ->
        client_secret args = Some s -> s <> "" ->
        urlopen_form E (trace w) TOKEN_ENDPOINT
          [("grant_type", "client_credentials"); ("client_id", i);
           ("client_secret", s); ("scope", DEFAULT_SCOPE)] = Ok (JObj fields) ->
        truthy (default JNull (assoc "access_token" fields)) = false ->
        let sent := PostForm TOKEN_ENDPOINT
                      [("grant_type", "client_credentials"); ("client_id", i);
                       ("client_secret", s); ("scope", DEFAULT_SCOPE)] in
        main_on E parts args w
        = (Uncaught (RuntimeError (TokenMissing (JObj fields))),
           {| fs := fs w; trace := trace w ++ [sent] |})).
Proof.
  split; [|split].
  - intros t Ht Hne. unfold main_token. rewrite Ht, (missing_some t Hne). reflexivity.
  - intros Ht Hc. unfold main_on, main_body, main_token, mbind, M_bind.
    rewrite Ht, Hc. split; reflexivity.
  - intros i s fields Ht Hi Hin Hs Hsn Hresp Hfalsy. cbn zeta.
    unfold main_on, main_body, main_token, fetch_token, http_post_form, mbind, M_bind, lift.
    rewrite Ht, Hi, Hs, (missing_some i Hin), (missing_some s Hsn). cbn [orb default from_option id].
    rewrite Hresp. cbn [get get_default].
    destruct (assoc "access_token" fields) as [v|]; cbn [default from_option id] in Hfalsy;
      rewrite Hfalsy; reflexivity.
Qed.

(** C9.  Whitespace-only explicit token: a token that is not empty and
    consists of whitespace only does not make the acquisition fail; the
    token becomes the empty string, no request goes to the token endpoint,
    and every query of the run is sent without an [Authorization] header. *)
Theorem whitespace_token_sends_no_header
    (parts : list PartSpec) (args : Args) (w : World) (t : string) :
  token args = Some t ->
  t <> "" ->
  all_space t = true ->
  main_token E args w = (Ok (Token (JStr "")), w)
  /\ exists evs,
       trace (main_on E parts args w).2 = trace w ++ evs
       /\ (forall url data, PostForm url data ∉ evs)
       /\ (forall url m authorization,
             PostJson url m authorization ∈ evs -> authorization = None).
Proof.
  intros Ht Hne Hsp.
  assert (Htok : main_token E args = mret (Token (JStr ""))).
  { unfold main_token. rewrite Ht, (missing_some t Hne). cbn [default from_option id].
    now rewrite (strip_all_space t Hsp). }
  split; [now rewrite Htok|].
  rewrite main_on_world.
  assert (Hem : emits (fun _ => True) anonymous (main_body E parts args)).
  { intros w' Hw'.
    assert (Hrun : main_body E parts args w'
                   = (mkdir (output args);; print E (Saving (output args));; print E Blank;;
                      main_loop E (JStr "") (output args) (skip_cad args) parts;;
                      mret 0%Z) w')
      by (unfold main_body; rewrite Htok; reflexivity).
    rewrite Hrun.
    refine (emits_main_after_token E (fun _ => True) anonymous parts args (JStr "")
              _ _ _ _ _ w' Hw'); try (intros; exact Logic.I); try reflexivity.
    intros url destination. apply emits_download_file; auto; exact Logic.I. }
  destruct (Hem w Logic.I) as (evs & Htr & _ & Hev). exists evs.
  rewrite Forall_forall in Hev. split; [exact Htr|]. split.
  - intros url data Hin. exact (Hev _ Hin).
  - intros url m a Hin. exact (Hev _ Hin).
Qed.

End Token.

(* ===================================================================== *)
(** * The loop over the catalog                                           *)
(* ===================================================================== *)

Section Total.

Context {A B : Type}.
Variable I : tree -> Prop.

Lemma total_bind (m : M A) (f : A -> M B) (R : A -> Prop) (R' : B -> Prop) :
  total I m R -> (forall a, R a -> total I (f a) R') -> total I (m ≫= f) R'.
Proof.
  intros Hm Hf. eapply hoare_bind; [exact Hm| |].
  - intros e evs (a & Ha & _). discriminate.
  - intros a e1 (a' & Ha & HR). injection Ha as <-. now apply Hf.
Qed.

Lemma total_ret (a : A) (R : A -> Prop) : R a -> total I (mret a) R.
Proof. intros HR. apply hoare_ret. eauto. Qed.

Lemma total_lift (a : A) (R : A -> Prop) : R a -> total I (lift (Ok a)) R.
Proof. intros HR. apply hoare_lift. eauto. Qed.

(** A [try] does not raise. *)
Lemma total_try (m : M A) (P : event -> Prop) :
  emits I P m -> total I (try m) (fun _ => True).
Proof.
  intros Hm. apply hoare_try. eapply hoare_weaken; [exact Hm|]. cbn. eauto.
Qed.

End Total.

Section Loop.

Variable E : Env.

Lemma total_emit (I : tree -> Prop) (e : event) : total I (emit e) (fun _ => True).
Proof. apply hoare_emit. eauto. Qed.

Lemma queried_app (a b : list event) : queried (a ++ b) = queried a ++ queried b.
Proof.
  induction a as [|[] a IH]; cbn; auto. now rewrite IH.
Qed.

Lemma queried_none (evs : list event) : Forall not_a_query evs -> queried evs = [].
Proof.
  induction 1 as [|[] evs H _ IH]; cbn in *; auto. contradiction.
Qed.

(** The query is all [fetch_part] does to the world. *)
Lemma fetch_part_trace (I : tree -> Prop) (token : json) (m : string) :
  hoare I (fetch_part E token m)
        (fun _ evs => evs = [PostJson GRAPHQL_ENDPOINT m (bearer token)]).
Proof.
  intros w Hw. exists [PostJson GRAPHQL_ENDPOINT m (bearer token)].
  unfold fetch_part, mbind, M_bind, http_post_json, lift.
  destruct (urlopen_json E _ _ _ _); cbn; auto.
Qed.

(** The loop body queries its part at most once, and once when it ends
    normally. *)
Lemma main_part_queries (token : json) (base_dir : path) (skip : bool) (spec : PartSpec) :
  hoare (fun _ => True) (main_part E token base_dir skip spec)
        (fun r evs => (queried evs = [] \/ queried evs = [mpn spec])
                      /\ (r = Ok tt -> queried evs = [mpn spec])).
Proof.
  unfold main_part.
  apply hoare_prefixed with (P := not_a_query).
  - now apply emits_print.
  - intros _.
    apply hoare_bind with (Q1 := fun r evs => exists a, r = Ok a /\ queried evs = [mpn spec]).
    { apply hoare_try. eapply hoare_weaken; [apply fetch_part_trace|].
      intros r evs ->. eauto. }
    { intros e evs (a & Ha & _). discriminate. }
    intros r e2 (r0 & _ & H2).
    assert (Hrest : emits (fun _ => True) not_a_query
                      match r with
                      | inl part => main_assets E base_dir skip spec part
                      | inr exc => print E (FetchFailed exc);; print E Blank
                      end).
    { destruct r as [part|exc].
      - apply emits_main_assets; try (intros; exact Logic.I).
        intros url name. apply emits_download_file; auto; exact Logic.I.
      - apply emits_bind; [now apply emits_print|intros _; now apply emits_print]. }
    eapply hoare_weaken; [exact Hrest|].
    intros r' e3 H3. cbn in H3. rewrite !queried_app, H2, (queried_none _ H3). cbn. auto.
  - intros e evs H. rewrite (queried_none _ H). split; [now left|discriminate].
  - intros r e1 e2 H1 [H2 H3]. rewrite queried_app, (queried_none _ H1). auto.
Qed.

(** When the loop ends without an exception, it has queried every part of
    the catalog, in order. *)
Lemma main_loop_queries (token : json) (base_dir : path) (skip : bool) (parts : list PartSpec) :
  hoare (fun _ => True) (main_loop E token base_dir skip parts)
        (fun r evs => r = Ok tt -> queried evs = map mpn parts).
Proof.
  induction parts as [|spec rest IH]; cbn [main_loop map].
  - apply hoare_ret. reflexivity.
  - eapply hoare_bind; [apply main_part_queries|discriminate|].
    intros [] e1 [_ H1]. eapply hoare_weaken; [exact IH|].
    intros r e2 H2 Hr. cbn in *. rewrite queried_app, (H1 eq_refl), (H2 Hr). reflexivity.
Qed.

Section Isolation.

Variables (token : json) (base_dir : path) (skip : bool) (parts : list PartSpec).

Local Abbreviation I := (unobstructed base_dir parts).

Hypothesis resolved_well_shaped :
  forall spec w part w', spec ∈ parts ->
    fetch_part E token (mpn spec) w = (Ok part, w') -> well_shaped E skip part.

Hypothesis can_print : printable E.

Lemma unobstructed_mkdir (t t' : tree) (p : path) :
  I t -> mkdir_p t p = Ok t' -> I t'.
Proof.
  intros Ht Hm spec Hs q c Hq Hl.
  destruct (mkdir_p_lookup _ _ _ q Hm) as [Heq|(_ & Hd & _)]; [|congruence].
  rewrite Heq in Hl. exact (Ht spec Hs q c Hq Hl).
Qed.

Lemma unobstructed_write (t : tree) (f name : string) (c : list byte) :
  I t -> I (<[base_dir ++ [f] ++ [name] := File c]> t).
Proof.
  intros Ht spec Hs q c' Hq Hl.
  destruct (decide (base_dir ++ [f] ++ [name] = q)) as [<-|Hne].
  - apply prefix_length in Hq. rewrite !length_app in Hq. cbn in Hq. lia.
  - rewrite lookup_insert_ne in Hl by assumption. exact (Ht spec Hs q c' Hq Hl).
Qed.

Lemma unobstructed_download (url : json) (f name : string) :
  emits I (fun _ => True) (download_file E url (base_dir ++ [f] ++ [name]) false).
Proof.
  apply emits_download_file; auto.
  - intros t t'. apply unobstructed_mkdir.
  - intros t c. apply unobstructed_write.
Qed.

(** A line printed outside of a [try] is printed. *)
Lemma total_print (l : line) :
  inside_try l = false -> total I (print E l) (fun _ => True).
Proof.
  intros Hl w Hw. exists [Print l]. unfold print. rewrite (can_print _ _ Hl). cbn. eauto.
Qed.

Lemma total_target_dir (spec : PartSpec) :
  spec ∈ parts -> total I (mkdir (base_dir ++ [folder spec])) (fun _ => True).
Proof.
  intros Hs. apply hoare_mkdir. intros t Ht.
  destruct (mkdir_walk_succeeds (base_dir ++ [folder spec]) t []) as [t' Hm].
  { intros q c Hq. exact (Ht spec Hs q c Hq). }
  unfold mkdir_p. rewrite Hm. split; [|eauto].
  eapply unobstructed_mkdir; [exact Ht|exact Hm].
Qed.

Lemma total_main_assets (spec : PartSpec) (part : json) :
  spec ∈ parts -> well_shaped E skip part ->
  total I (main_assets E base_dir skip spec part) (fun _ => True).
Proof.
  intros Hs ((digi & Hdigi) & (d & Hpick) & Hcad). unfold main_assets.
  rewrite Hdigi.
  apply total_bind with (R := fun _ => True); [now apply total_lift|intros digi' _].
  apply total_bind with (R := fun _ => True);
    [destruct digi'; [now apply total_ret|now apply total_print]|intros _ _].
  apply total_bind with (R := fun _ => True); [now apply total_target_dir|intros _ _].
  apply total_bind with (R := fun _ => True).
  { unfold main_datasheet. rewrite Hpick.
    apply total_bind with (R := fun _ => True); [now apply total_lift|intros d' _].
    destruct (truthy d'); [|now apply total_print].
    apply total_bind with (R := fun _ => True).
    - apply total_try with (P := fun _ => True).
      apply emits_bind; [apply emits_lift|intros url].
      apply emits_bind; [|intros changed; now apply emits_print].
      rewrite <- app_assoc. apply unobstructed_download.
    - intros [u|exc] _; [now apply total_ret|now apply total_print]. }
  intros _ _. apply total_bind with (R := fun _ => True).
  { destruct skip; [now apply total_ret|].
    destruct (Hcad eq_refl) as (request & Hreq). unfold main_cad. rewrite Hreq.
    apply total_bind with (R := fun _ => True); [now apply total_lift|intros request' _].
    destruct request' as [[kicad_url ext]|]; [|now apply total_print].
    apply total_bind with (R := fun _ => True).
    - apply total_try with (P := fun _ => True).
      apply emits_bind; [|intros changed; now apply emits_print].
      rewrite <- app_assoc. apply unobstructed_download.
    - intros [u|exc] _; [now apply total_ret|now apply total_print]. }
  intros _ _.
  apply total_bind with (R := fun _ => True);
    [now apply total_print|intros _ _; apply total_emit].
Qed.

Lemma total_main_part (spec : PartSpec) :
  spec ∈ parts -> total I (main_part E token base_dir skip spec) (fun _ => True).
Proof.
  intros Hs. unfold main_part.
  apply total_bind with (R := fun _ => True); [now apply total_print|intros _ _].
  apply total_bind with (R := fun r => forall part, r = inl part -> well_shaped E skip part).
  - intros w Hw.
    destruct (fetch_part_trace I token (mpn spec) w Hw) as (evs & Ht & HI & _).
    unfold try. destruct (fetch_part E token (mpn spec) w) as [[part|e] w'] eqn:Hf;
      cbn [fst snd] in *; exists evs; repeat split; auto.
    + exists (inl part). split; [reflexivity|]. intros ? [= <-].
      exact (resolved_well_shaped spec w part w' Hs Hf).
    + exists (inr e). split; [reflexivity|]. discriminate.
  - intros [part|exc] Hr.
    + apply total_main_assets; auto.
    + apply total_bind with (R := fun _ => True);
        [now apply total_print|intros _ _; now apply total_print].
Qed.

Lemma total_main_loop (rest : list PartSpec) :
  (forall spec, spec ∈ rest -> spec ∈ parts) ->
  total I (main_loop E token base_dir skip rest) (fun _ => True).
Proof.
  induction rest as [|spec rest IH]; intros Hsub; cbn [main_loop].
  - now apply total_ret.
  - apply total_bind with (R := fun _ => True);
      [apply total_main_part, Hsub; left|intros _ _].
    apply IH. intros s Hin. apply Hsub. now right.
Qed.

End Isolation.

End Loop.

(* ===================================================================== *)
(** * Isolation and pacing                                                *)
(* ===================================================================== *)

Section Entries.

Variable E : Env.

(** A failed resolution is reported, and the loop body ends normally. *)
Lemma main_part_resolution_failure
    (token : json) (base_dir : path) (skip : bool) (spec : PartSpec)
    (w w1 : World) (exc : exn) :
  printable E ->
  fetch_part E token (mpn spec)
    {| fs := fs w; trace := trace w ++ [Print (Header (mpn spec) (description spec))] |}
  = (Raise exc, w1) ->
  main_part E token base_dir skip spec w
  = (Ok tt, {| fs := fs w1; trace := (trace w1 ++ [Print (FetchFailed exc)]) ++ [Print Blank] |}).
Proof.
  intros Hp Hf. unfold main_part, mbind, M_bind, print, try.
  rewrite (Hp _ (Header (mpn spec) (description spec)) eq_refl). cbn [fs trace]. rewrite Hf.
  rewrite (Hp _ (FetchFailed exc) eq_refl). cbn [fs trace].
  rewrite (Hp _ Blank eq_refl). reflexivity.
Qed.

(** A failed download of the datasheet is reported, and the step ends
    normally. *)
Lemma main_datasheet_download_failure
    (spec : PartSpec) (target_dir : path) (part datasheet url : json)
    (w w1 : World) (exc : exn) :
  printable E ->
  pick_datasheet part = Ok datasheet ->
  truthy datasheet = true ->
  item datasheet "url" = Ok url ->
  download_file E url (target_dir ++ [mpn spec +:+ " datasheet.pdf"]) false w
  = (Raise exc, w1) ->
  main_datasheet E spec target_dir part w
  = (Ok tt, {| fs := fs w1; trace := trace w1 ++ [Print (DatasheetFailed exc)] |}).
Proof.
  intros Hp Hpick Ht Hu Hd. unfold main_datasheet, mbind, M_bind, lift, try.
  rewrite Hpick, Ht, Hu, Hd. unfold print.
  rewrite (Hp _ (DatasheetFailed exc) eq_refl). reflexivity.
Qed.

(** A failed download of the KiCad library is reported, and the step ends
    normally. *)
Lemma main_cad_download_failure
    (spec : PartSpec) (target_dir : path) (part url : json) (ext : string)
    (w w1 : World) (exc : exn) :
  printable E ->
  cad_request E part = Ok (Some (url, ext)) ->
  download_file E url (target_dir ++ [mpn spec +:+ " kicad" +:+ ext]) false w
  = (Raise exc, w1) ->
  main_cad E spec target_dir part w
  = (Ok tt, {| fs := fs w1; trace := trace w1 ++ [Print (KicadFailed exc)] |}).
Proof.
  intros Hp Hreq Hd. unfold main_cad, mbind, M_bind, lift, try.
  rewrite Hreq, Hd. unfold print. rewrite (Hp _ (KicadFailed exc) eq_refl). reflexivity.
Qed.


End Entries.

(** Every part the [healthy] service returns goes through the steps that
    run outside of a handler. *)
Lemma healthy_well_shaped (token : json) (m : string) (w0 w1 : World) (part : json) :
  fetch_part healthy token m w0 = (Ok part, w1) -> well_shaped healthy false part.
Proof.
  intros H. injection H as <- _. repeat split; [eexists; reflexivity..|].
  intros _. eexists; reflexivity.
Qed.

(** So does every part the [flaky] service returns. *)
Lemma flaky_well_shaped (token : json) (m : string) (w0 w1 : World) (part : json) :
  fetch_part flaky token m w0 = (Ok part, w1) -> well_shaped flaky false part.
Proof.
  unfold fetch_part, mbind, M_bind, http_post_json, lift, flaky, service.
  cbn [urlopen_json]. destruct (m =? "CL10B104KB8NNNC")%string; [discriminate|].
  intros H. injection H as <- _. repeat split; [eexists; reflexivity..|].
  intros _. eexists; reflexivity.
Qed.

Lemma unobstructed_empty (base_dir : path) (parts : list PartSpec) :
  unobstructed base_dir parts ∅.
Proof. intros spec _ q c _. rewrite lookup_empty. discriminate. Qed.

Lemma service_printable (query : string -> res json) (download : json -> res (list read)) :
  printable (service query download).
Proof. intros history l _. reflexivity. Qed.

(** On the [flaky] service the resolution of the second entry fails and so
    does every download: the run reports them and attempts all 26 entries. *)
Lemma flaky_run_reports :
  let run := main flaky with_token (start ∅) in
  run.1 = Exit 0
  /\ queried (trace run.2) = map mpn PARTS
  /\ failures (trace run.2) = 1%nat
  /\ datasheet_failures (trace run.2) = 25%nat
  /\ kicad_failures (trace run.2) = 25%nat
  /\ sleeps (trace run.2) = 25%nat.
Proof. vm_compute. repeat split; reflexivity. Qed.

Lemma mkdir_p_empty (p : path) : exists t1, mkdir_p ∅ p = Ok t1.
Proof.
  apply (mkdir_walk_succeeds p ∅ []). intros q c _. rewrite lookup_empty. discriminate.
Qed.

(** On the [flaky] service a download into an empty tree creates the
    folders of its destination, starts the transfer and raises. *)
Lemma flaky_download (url : json) (d : string) (rest : path) :
  exists t1,
    download_file flaky url (d :: rest) false (start ∅)
    = (Raise (RuntimeError (DownloadFailed url (URLError "unreachable"))),
       {| fs := t1; trace := [Get url] |}).
Proof.
  destruct (mkdir_p_empty (parent (d :: rest))) as [t1 Hm]. exists t1.
  unfold download_file, exists_, lookup_node. cbn [fs start trace].
  rewrite lookup_empty. cbn [andb]. rewrite Hm. reflexivity.
Qed.



(** A seller without a company name: the seller check calls [strip] on
    [None], nothing catches the exception, and the run ends with the first
    entry. *)
Lemma nameless_seller_ends_run :
  let run := main nameless_sellers with_token (start ∅) in
  run.1 = Uncaught AttributeError
  /\ queried (trace run.2) = ["ESP32-S3-WROOM-1-N16R8"].
Proof. vm_compute. repeat split; reflexivity. Qed.

(** A standard output that cannot encode the catalog: the header of the
    second entry has a micro sign, printing it raises outside of any
    handler, and the run ends there, after one query. *)
Lemma ascii_terminal_ends_run :
  let run := main ascii_terminal with_token (start ∅) in
  run.1 = Uncaught (OtherError "UnicodeEncodeError")
  /\ queried (trace run.2) = ["ESP32-S3-WROOM-1-N16R8"].
Proof. vm_compute. repeat split; reflexivity. Qed.

(** C2.  Pacing, on a service that cannot be reached: every entry of the
    catalog is queried, every resolution fails, the run ends with status 0,
    and not a single pacing delay has been inserted. *)
Theorem failed_resolution_skips_delay :
  let run := main offline with_token (start ∅) in
  run.1 = Exit 0
  /\ queried (trace run.2) = map mpn PARTS
  /\ sleeps (trace run.2) = 0%nat.
Proof. vm_compute. repeat split; reflexivity. Qed.

(** On a service that answers, each of the 26 entries is followed by its
    delay. *)
Lemma resolved_entries_are_paced :
  let run := main healthy with_token (start ∅) in
  run.1 = Exit 0
  /\ queried (trace run.2) = map mpn PARTS
  /\ sleeps (trace run.2) = 26%nat
  /\ gets (trace run.2) = 26%nat.
Proof. vm_compute. repeat split; reflexivity. Qed.

(** No name the script joins to a path contains a separator. *)
Lemma PARTS_names_plain :
  forallb (fun spec => negb (contains "/" (mpn spec)) && negb (contains "/" (folder spec)))
          PARTS = true.
Proof. reflexivity. Qed.

Lemma main_never_fetches_again_witness :
  let p := ["components"; "esp32 module"; "ESP32-S3-WROOM-1-N16R8 datasheet.pdf"] in
  fs (main healthy with_token (start stocked)).2 !! p = Some (File pdf)
  /\ exists evs, trace (main healthy with_token (start stocked)).2 = [] ++ evs
                 /\ OpenWrite p ∉ evs.
Proof.
  apply (main_never_fetches_again healthy with_token (start stocked)
           ["components"; "esp32 module"; "ESP32-S3-WROOM-1-N16R8 datasheet.pdf"] pdf);
    [reflexivity|discriminate].
Defined.

Lemma credential_acquisition_witness :
  main_token healthy with_token (start ∅) = (Ok (Token (JStr "secret")), start ∅)
  /\ main_on healthy PARTS no_credentials (start ∅) = (Exit 2, start ∅)
  /\ main_on refused PARTS with_client (start ∅)
     = (Uncaught (RuntimeError (TokenMissing (JObj [("error", JStr "invalid_client")]))),
        {| fs := ∅;
           trace := [PostForm TOKEN_ENDPOINT
                       [("grant_type", "client_credentials"); ("client_id", "id");
                        ("client_secret", "hunter2"); ("scope", DEFAULT_SCOPE)]] |}).
Proof.
  split; [|split].
  - apply (proj1 (credential_acquisition healthy PARTS with_token (start ∅)) "secret");
      [reflexivity|discriminate].
  - apply (proj1 (proj2 (credential_acquisition healthy PARTS no_credentials (start ∅))));
      reflexivity.
  - apply (proj2 (proj2 (credential_acquisition refused PARTS with_client (start ∅)))
             "id" "hunter2" [("error", JStr "invalid_client")]);
      try reflexivity; discriminate.
Defined.

Lemma whitespace_token_sends_no_header_witness :
  main_token healthy blank_token (start ∅) = (Ok (Token (JStr "")), start ∅)
  /\ exists evs,
       trace (main_on healthy PARTS blank_token (start ∅)).2 = [] ++ evs
       /\ (forall url data, PostForm url data ∉ evs)
       /\ (forall url m authorization,
             PostJson url m authorization ∈ evs -> authorization = None).
Proof.
  apply (whitespace_token_sends_no_header healthy PARTS blank_token (start ∅)
           (String " " (String " " (String (ascii_of_N 9) (String (ascii_of_N 10) "")))));
    [reflexivity|discriminate|reflexivity].
Defined.

(* ===================================================================== *)
(** * Sellers, responses, CAD data                                        *)
(* ===================================================================== *)

Section Sellers.

Lemma any_digikey_named (sellers : list Seller) :
  forallb (fun s => negb (name_is_null s)) sellers = true ->
  any_digikey (map encode_seller sellers) = Ok (existsb is_digikey sellers).
Proof.
  induction sellers as [|s sellers IH]; intros H; [reflexivity|].
  cbn [forallb] in H. apply andb_prop in H as [Hs H].
  cbn [map any_digikey existsb].
  destruct s as [| |n|]; try discriminate Hs; cbn; try (now apply IH).
  destruct (lower (strip n) =? "digikey")%string; [reflexivity|now apply IH].
Qed.

(** X1.  Seller check: for a part whose sellers have no [null] company
    name, [ensure_digikey_seller] returns whether some seller's company
    name, stripped and lowered, is "digikey"; a [null] seller, a seller
    without company and an empty name count as no match.  Without a
    [sellers] list ([null] or missing), the answer is [False]. *)
Theorem ensure_digikey_seller_named (fields : list (string * json)) (sellers : list Seller) :
  forallb (fun s => negb (name_is_null s)) sellers = true ->
  (assoc "sellers" fields = Some (JArr (map encode_seller sellers)) ->
   ensure_digikey_seller (JObj fields) = Ok (existsb is_digikey sellers))
  /\ (assoc "sellers" fields = None \/ assoc "sellers" fields = Some JNull ->
      ensure_digikey_seller (JObj fields) = Ok false).
Proof.
  intros Hn. split.
  - intros Hs. unfold ensure_digikey_seller, get, get_default. rewrite Hs.
    cbn [mbind res_bind]. destruct sellers as [|s sellers]; [reflexivity|].
    change (py_or (JArr (map encode_seller (s :: sellers))) (JArr []))
      with (JArr (map encode_seller (s :: sellers))).
    cbn [iter mbind res_bind]. now apply any_digikey_named.
  - intros [Hs|Hs]; unfold ensure_digikey_seller, get, get_default; rewrite Hs; reflexivity.
Qed.

(** X2.  Seller check, [null] name: a seller whose company name is [null]
    makes [ensure_digikey_seller] raise [AttributeError] when no seller
    before it is DigiKey; when one is, the function has returned [True]
    before it looks at the [null] name. *)
Theorem ensure_digikey_seller_null_name
    (fields : list (string * json)) (before after : list Seller) :
  forallb (fun s => negb (name_is_null s)) before = true ->
  assoc "sellers" fields
  = Some (JArr (map encode_seller (before ++ CompanyNameNull :: after))) ->
  ensure_digikey_seller (JObj fields)
  = if existsb is_digikey before then Ok true else Raise AttributeError.
Proof.
  intros Hn Hs. unfold ensure_digikey_seller, get, get_default. rewrite Hs.
  cbn [mbind res_bind].
  assert (Hor : py_or (JArr (map encode_seller (before ++ CompanyNameNull :: after))) (JArr [])
                = JArr (map encode_seller (before ++ CompanyNameNull :: after)))
    by (destruct before; reflexivity).
  rewrite Hor. cbn [iter mbind res_bind]. clear Hs Hor.
  induction before as [|s before IH]; [reflexivity|].
  cbn [forallb] in Hn. apply andb_prop in Hn as [Hs Hn].
  cbn [app map any_digikey existsb].
  destruct s as [| |n|]; try discriminate Hs; cbn; try (now apply IH).
  destruct (lower (strip n) =? "digikey")%string; [reflexivity|now apply IH].
Qed.

End Sellers.

Lemma ensure_digikey_seller_named_witness :
  ensure_digikey_seller
    (JObj [("sellers", JArr (map encode_seller
                               [SellerNull; CompanyNull; CompanyNamed "Mouser";
                                CompanyNamed "  DIGIKEY "]))])
  = Ok true.
Proof.
  apply (proj1 (ensure_digikey_seller_named
                  [("sellers", JArr (map encode_seller
                                       [SellerNull; CompanyNull; CompanyNamed "Mouser";
                                        CompanyNamed "  DIGIKEY "]))]
                  [SellerNull; CompanyNull; CompanyNamed "Mouser"; CompanyNamed "  DIGIKEY "]
                  eq_refl)).
  reflexivity.
Defined.

Lemma ensure_digikey_seller_null_name_witness :
  ensure_digikey_seller
    (JObj [("sellers", JArr (map encode_seller
                               ([CompanyNamed "Mouser"] ++ CompanyNameNull
                                  :: [CompanyNamed "DigiKey"])))])
  = Raise AttributeError.
Proof.
  apply (ensure_digikey_seller_null_name
           [("sellers", JArr (map encode_seller
                                ([CompanyNamed "Mouser"] ++ CompanyNameNull
                                   :: [CompanyNamed "DigiKey"])))]
           [CompanyNamed "Mouser"] [CompanyNamed "DigiKey"]); reflexivity.
Defined.

Section Responses.

Variable E : Env.

(** [fetch_part] sends one query and reads the part out of the answer. *)
Lemma fetch_part_unfold (token : json) (m : string) (w : World) :
  fetch_part E token m w
  = (urlopen_json E (trace w) GRAPHQL_ENDPOINT m (bearer token) ≫= part_of_response m,
     {| fs := fs w;
        trace := trace w ++ [PostJson GRAPHQL_ENDPOINT m (bearer token)] |}).
Proof.
  unfold fetch_part, mbind at 1, M_bind, http_post_json, lift, bearer.
  destruct (urlopen_json E _ _ _ _); reflexivity.
Qed.

(** X3.  Resolver errors: a transport error of the query is passed on as
    it is, and an answer that carries an [errors] field is turned into a
    [RuntimeError] holding the part number and the errors, whatever else
    the answer holds (a [data] field with results is not looked at). *)
Theorem fetch_part_errors (token : json) (m : string) (w : World) :
  let w' := {| fs := fs w;
               trace := trace w ++ [PostJson GRAPHQL_ENDPOINT m (bearer token)] |} in
  (forall e, urlopen_json E (trace w) GRAPHQL_ENDPOINT m (bearer token) = Raise e ->
     fetch_part E token m w = (Raise e, w'))
  /\ (forall fields errors,
        urlopen_json E (trace w) GRAPHQL_ENDPOINT m (bearer token) = Ok (JObj fields) ->
        assoc "errors" fields = Some errors ->
        fetch_part E token m w = (Raise (RuntimeError (QueryError m errors)), w')).
Proof.
  cbn zeta. split.
  - intros e He. rewrite fetch_part_unfold, He. reflexivity.
  - intros fields errors Hr He. rewrite fetch_part_unfold, Hr.
    cbn [mbind res_bind]. unfold part_of_response, str_in, item. rewrite He. reflexivity.
Qed.

(** X4.  No result: an answer without [errors] in which [data] is missing,
    or [data.supSearch] is missing, or [results] is missing, [null] or
    empty, makes [fetch_part] raise the [RuntimeError] "did not return a
    result".  An answer whose [data] is [null] is not reported that way:
    reading [supSearch] from it raises [AttributeError]. *)
Theorem fetch_part_no_result (token : json) (m : string) (w : World)
    (fields : list (string * json)) :
  urlopen_json E (trace w) GRAPHQL_ENDPOINT m (bearer token) = Ok (JObj fields) ->
  assoc "errors" fields = None ->
  let w' := {| fs := fs w;
               trace := trace w ++ [PostJson GRAPHQL_ENDPOINT m (bearer token)] |} in
  (assoc "data" fields = None ->
   fetch_part E token m w = (Raise (RuntimeError (NoResult m)), w'))
  /\ (forall d, assoc "data" fields = Some (JObj d) -> assoc "supSearch" d = None ->
        fetch_part E token m w = (Raise (RuntimeError (NoResult m)), w'))
  /\ (forall d s, assoc "data" fields = Some (JObj d) ->
        assoc "supSearch" d = Some (JObj s) ->
        truthy (default JNull (assoc "results" s)) = false ->
        fetch_part E token m w = (Raise (RuntimeError (NoResult m)), w'))
  /\ (assoc "data" fields = Some JNull ->
      fetch_part E token m w = (Raise AttributeError, w')).
Proof.
  intros Hr He. cbn zeta. rewrite fetch_part_unfold, Hr. cbn [mbind res_bind].
  unfold part_of_response, str_in. rewrite He. cbn [mbind res_bind].
  unfold get, get_default. repeat split.
  - intros ->. reflexivity.
  - intros d -> Hs. cbn [mbind res_bind]. rewrite Hs. reflexivity.
  - intros d s -> Hs Hres. cbn [mbind res_bind]. rewrite Hs. cbn [mbind res_bind].
    unfold py_or. destruct (assoc "results" s) as [r|]; cbn [default from_option id] in Hres;
      rewrite Hres; reflexivity.
  - intros ->. reflexivity.
Qed.

(** X5.  First result: from an answer without [errors] whose [results] is
    a list that starts with an object, [fetch_part] returns the [part] of
    that first object and ignores the other results; the query is the only
    thing it does to the world. *)
Theorem fetch_part_first_result (token : json) (m : string) (w : World)
    (fields d s first : list (string * json)) (others : list json) (part : json) :
  urlopen_json E (trace w) GRAPHQL_ENDPOINT m (bearer token) = Ok (JObj fields) ->
  assoc "errors" fields = None ->
  assoc "data" fields = Some (JObj d) ->
  assoc "supSearch" d = Some (JObj s) ->
  assoc "results" s = Some (JArr (JObj first :: others)) ->
  assoc "part" first = Some part ->
  fetch_part E token m w
  = (Ok part,
     {| fs := fs w;
        trace := trace w ++ [PostJson GRAPHQL_ENDPOINT m (bearer token)] |}).
Proof.
  intros Hr He Hd Hs Hres Hp. rewrite fetch_part_unfold, Hr. cbn [mbind res_bind].
  unfold part_of_response, str_in, get, get_default, item. rewrite He. cbn [mbind res_bind].
  rewrite Hd. cbn [mbind res_bind]. rewrite Hs. cbn [mbind res_bind]. rewrite Hres.
  cbn. rewrite Hp. reflexivity.
Qed.

(** X6.  Client credentials: [fetch_token] sends one form to the token
    endpoint, with the grant type, the client id, the client secret and the
    scope, and returns the [access_token] of the answer as it is (it is not
    stripped); nothing else changes. *)
Theorem fetch_token_returns_access_token
    (i s scope : string) (w : World) (fields : list (string * json)) (t : json) :
  let form := [("grant_type", "client_credentials"); ("client_id", i);
               ("client_secret", s); ("scope", scope)] in
  urlopen_form E (trace w) TOKEN_ENDPOINT form = Ok (JObj fields) ->
  assoc "access_token" fields = Some t ->
  truthy t = true ->
  fetch_token E i s scope w
  = (Ok t, {| fs := fs w; trace := trace w ++ [PostForm TOKEN_ENDPOINT form] |}).
Proof.
  cbn zeta. intros Hr Ht Htr.
  unfold fetch_token, mbind, M_bind, http_post_form, lift.
  rewrite Hr. cbn [get get_default]. rewrite Ht, Htr. reflexivity.
Qed.

(** X7.  CAD request: when [main] asks for the KiCad library of a part, the
    part says it has one, the URL is not empty, and the extension of the
    file is not empty: it is the suffix of the URL, or ".zip" when the URL
    has none.  A part without CAD data ([null] or missing) asks for none. *)
Theorem cad_request_sound (part : json) :
  (forall url ext, cad_request E part = Ok (Some (url, ext)) ->
     truthy url = true
     /\ ext <> ""
     /\ exists cad_info,
          get part "cad" = Ok cad_info
          /\ get (py_or cad_info (JObj [])) "downloadUrlKicad" = Ok url
          /\ (exists has, get (py_or cad_info (JObj [])) "hasKicad" = Ok has
                          /\ truthy has = true)
          /\ (url_suffix E url = Ok ext \/ (url_suffix E url = Ok "" /\ ext = ".zip")))
  /\ (forall fields, part = JObj fields ->
        assoc "cad" fields = None \/ assoc "cad" fields = Some JNull ->
        cad_request E part = Ok None).
Proof.
  split.
  - intros url ext. unfold cad_request.
    destruct (get part "cad") as [cv|e] eqn:Hc; [|discriminate]. cbn [mbind res_bind].
    destruct (get (py_or cv (JObj [])) "downloadUrlKicad") as [ku|e] eqn:Hk; [|discriminate].
    cbn [mbind res_bind].
    destruct (get (py_or cv (JObj [])) "hasKicad") as [has|e] eqn:Hh; [|discriminate].
    cbn [mbind res_bind].
    destruct (truthy has) eqn:Hth; [|discriminate].
    destruct (truthy ku) eqn:Htk; [|discriminate]. cbn [andb].
    destruct (url_suffix E ku) as [suffix|e] eqn:Hsuf; [|discriminate]. cbn [mbind res_bind].
    intros [= <- <-]. split; [exact Htk|]. split.
    + destruct suffix; [discriminate|discriminate].
    + exists cv. repeat split; eauto.
      destruct suffix; [right|left]; auto.
  - intros fields -> [Hc|Hc]; unfold cad_request, get, get_default; rewrite Hc; reflexivity.
Qed.

End Responses.

(* ===================================================================== *)
(** * The selector on every part record                                   *)
(* ===================================================================== *)

(** X8.  The selector on part records: on every part record of the shape
    the query asks for, [pick_datasheet] does not raise and returns what the
    selection policy of the specification returns; a selected reference has
    a URL and a name that are not empty, and when it comes from the scan of
    the collections its name contains "datasheet" in some case. *)
Theorem pick_datasheet_total (p : PartRecord) :
  pick_datasheet (encode_part p) = Ok (encode_selection (select_datasheet p))
  /\ forall name url, select_datasheet p = Some (name, url) ->
       url <> "" /\ name <> ""
       /\ (usable_best p = None -> mentions_datasheet name = true).
Proof.
  unfold select_datasheet, pick_datasheet, encode_part.
  change (get (JObj _) "bestDatasheet")
    with (Ok (match best_datasheet p with
              | Some d => encode_document d
              | None => JNull
              end)).
  change (get (JObj _) "documentCollections")
    with (Ok (match document_collections p with
              | Some cs => JArr (map encode_collection cs)
              | None => JNull
              end)).
  cbn [mbind res_bind].
  assert (Hscan : forall name url,
             first_remaining ∅ (scan_order p) = Some (name, url) ->
             url <> "" /\ name <> "" /\ mentions_datasheet name = true).
  { intros name url H.
    destruct (first_remaining_first_occurrence _ _ _ H)
      as (i & cd & _ & Hr & Hm & Hu & _). injection Hr as -> ->.
    repeat split; auto. intros He. rewrite He in Hm. discriminate. }
  unfold usable_best. destruct (best_datasheet p) as [d|].
  - change (py_or (encode_document d) (JObj [])) with (encode_document d).
    change (get (encode_document d) "url") with (Ok (encode_string (doc_url d))).
    change (get (encode_document d) "name") with (Ok (encode_string (doc_name d))).
    change (item (encode_document d) "url") with (Ok (encode_string (doc_url d))).
    cbn [mbind res_bind]. rewrite truthy_encode_string.
    destruct (String.eqb_spec (text (doc_url d)) "") as [He|Hne]; cbn [negb].
    + rewrite iter_collections. cbn [mbind res_bind]. split.
      * apply scan_collections_refines, same_urls_empty.
      * intros name url H. destruct (Hscan name url H) as (? & ? & ?). auto.
    + split.
      * unfold py_or. rewrite truthy_encode_string.
        destruct (doc_url d) as [u|]; [|contradiction].
        destruct (doc_name d) as [[|a n]|]; reflexivity.
      * intros name url [= <- <-]. repeat split; auto; [|discriminate].
        destruct (String.eqb_spec (text (doc_name d)) ""); [discriminate|assumption].
  - change (py_or JNull (JObj [])) with (JObj []).
    cbn. rewrite iter_collections. cbn [mbind res_bind]. split.
    + apply scan_collections_refines, same_urls_empty.
    + intros name url H. destruct (Hscan name url H) as (? & ? & ?). auto.
Qed.

(* ===================================================================== *)
(** * The synchronizer: what it writes                                    *)
(* ===================================================================== *)

Section Bodies.

Variable E : Env.

Lemma read_all_body (chunks : list (list byte)) :
  Forall (fun c => c <> []) chunks ->
  forall tail written,
    read_all (body chunks ++ tail) written = read_all tail (written ++ concat chunks).
Proof.
  induction 1 as [|c chunks Hc _ IH]; intros tail written; cbn.
  - now rewrite app_nil_r.
  - destruct c as [|b c]; [congruence|]. rewrite IH, <- app_assoc. reflexivity.
Qed.

Lemma not_dir_after_mkdir (t t1 : tree) (destination : path) :
  mkdir_p t (parent destination) = Ok t1 ->
  lookup_node t destination <> Some Dir -> lookup_node t1 destination <> Some Dir.
Proof.
  intros Hm Hd. unfold lookup_node in *. destruct destination as [|a p]; [exact Hd|].
  now rewrite (mkdir_parent_lookup _ _ _ Hm).
Qed.

(** What [download_file] does once it has a response. *)
Lemma download_file_fetches (url : json) (destination : path) (overwrite : bool)
    (w : World) (t1 : tree) (reads : list read) :
  stale E w destination overwrite ->
  mkdir_p (fs w) (parent destination) = Ok t1 ->
  lookup_node (fs w) destination <> Some Dir ->
  urlopen_get E (trace w) url = Ok reads ->
  download_file E url destination overwrite w
  = (match (read_all reads []).2 with
     | None => Ok true
     | Some e => Raise (reraise url e)
     end,
     {| fs := <[destination := File (read_all reads []).1]> t1;
        trace := (trace w ++ [Get url]) ++ [OpenWrite destination] |}).
Proof.
  intros Hst Hm Hd Hg. unfold download_file. unfold stale in Hst. rewrite Hst, Hm, Hg.
  pose proof (not_dir_after_mkdir _ _ _ Hm Hd) as Hd1.
  unfold open_wb. destruct (lookup_node t1 destination) as [[c|]|]; try congruence;
    destruct (read_all reads []) as [written [e|]]; reflexivity.
Qed.

(** X9.  A complete transfer: when the destination has to be fetched and
    the response body arrives whole, [download_file] returns [True] and the
    destination holds exactly the body, the chunks in the order they were
    read, in place of whatever it held before; the request and the opening
    of the file are the only events. *)
Theorem download_file_writes_body (url : json) (destination : path) (overwrite : bool)
    (w : World) (t1 : tree) (chunks : list (list byte)) :
  stale E w destination overwrite ->
  mkdir_p (fs w) (parent destination) = Ok t1 ->
  lookup_node (fs w) destination <> Some Dir ->
  urlopen_get E (trace w) url = Ok (body chunks) ->
  Forall (fun c => c <> []) chunks ->
  download_file E url destination overwrite w
  = (Ok true,
     {| fs := <[destination := File (concat chunks)]> t1;
        trace := (trace w ++ [Get url]) ++ [OpenWrite destination] |}).
Proof.
  intros Hst Hm Hd Hg Hc.
  rewrite (download_file_fetches url destination overwrite w t1 _ Hst Hm Hd Hg).
  rewrite <- (app_nil_r (body chunks)), (read_all_body chunks Hc [] []). reflexivity.
Qed.

(** X10.  An interrupted transfer: when reading the body fails after some
    chunks, [download_file] raises (a [URLError] wrapped in a
    [RuntimeError], anything else as it is) and leaves the chunks read so
    far in the destination; if that is at least one byte, the next call
    without the override flag takes the partial file for the asset and
    reports it as already present. *)
Theorem download_file_leaves_partial_file (url : json) (destination : path)
    (overwrite : bool) (w : World) (t1 : tree) (chunks : list (list byte))
    (e : exn) (rest : list read) :
  stale E w destination overwrite ->
  mkdir_p (fs w) (parent destination) = Ok t1 ->
  lookup_node (fs w) destination <> Some Dir ->
  urlopen_get E (trace w) url = Ok (body chunks ++ ReadError e :: rest) ->
  Forall (fun c => c <> []) chunks ->
  let w' := {| fs := <[destination := File (concat chunks)]> t1;
               trace := (trace w ++ [Get url]) ++ [OpenWrite destination] |} in
  download_file E url destination overwrite w = (Raise (reraise url e), w')
  /\ (chunks <> [] -> forall url', download_file E url' destination false w' = (Ok false, w')).
Proof.
  intros Hst Hm Hd Hg Hc. cbn zeta. split.
  - rewrite (download_file_fetches url destination overwrite w t1 _ Hst Hm Hd Hg).
    rewrite (read_all_body chunks Hc). reflexivity.
  - intros Hne url'.
    assert (Hdest : destination <> []) by (intros ->; now apply Hd).
    assert (Hl : lookup_node (<[destination := File (concat chunks)]> t1) destination
                 = Some (File (concat chunks))).
    { unfold lookup_node. destruct destination; [congruence|]. apply lookup_insert_eq. }
    apply download_file_present; unfold exists_, st_size; cbn [fs]; rewrite Hl; [reflexivity|].
    destruct Hc as [|c chunks Hc0 _]; [congruence|].
    destruct c; [congruence|]. cbn. lia.
Qed.

(** X11.  The override flag: with [overwrite=True], [download_file] never
    reports the destination as already present, and unless the parent
    directory cannot be created it sends a request, whatever the
    destination holds. *)
Theorem download_file_overwrite (url : json) (destination : path) (w : World) :
  (download_file E url destination true w).1 <> Ok false
  /\ forall t1, mkdir_p (fs w) (parent destination) = Ok t1 ->
       exists evs,
         trace (download_file E url destination true w).2 = trace w ++ Get url :: evs.
Proof.
  pose proof (download_file_cases E url destination true w) as Hc.
  destruct (download_file E url destination true w) as [r w']. cbn [fst snd] in *.
  inversion Hc as [He Ho|e Hst Hm|t1 e Hst Hm Hg|t1 reads e Hst Hm Hg Ho
                  |t1 reads written failure Hst Hm Hg Hd Hr]; subst;
    try discriminate; (split; [try discriminate|]).
  - intros t1 Hm'. congruence.
  - intros ? _. exists []. reflexivity.
  - intros ? _. exists []. reflexivity.
  - destruct failure; discriminate.
  - intros ? _. exists [OpenWrite destination]. cbn [trace]. now rewrite <- app_assoc.
Qed.

End Bodies.

(* ===================================================================== *)
(** * The run, step by step                                               *)
(* ===================================================================== *)

Section Steps.

Variable E : Env.
Variable I : tree -> Prop.
Variable P : event -> Prop.

Lemma emits_main_datasheet (spec : PartSpec) (target_dir : path) (part : json) :
  P (Print NoDatasheet) ->
  (forall changed, P (Print (DatasheetLine changed
                               (target_dir ++ [mpn spec +:+ " datasheet.pdf"])))) ->
  (forall exc, P (Print (DatasheetFailed exc))) ->
  (forall url, emits I P (download_file E url
                            (target_dir ++ [mpn spec +:+ " datasheet.pdf"]) false)) ->
  emits I P (main_datasheet E spec target_dir part).
Proof.
  intros Hnone Hline Hfailed Hdl. unfold main_datasheet.
  apply emits_bind; [apply emits_lift|intros datasheet].
  destruct (truthy datasheet); [|now apply emits_print].
  apply emits_bind.
  - apply emits_try, emits_bind; [apply emits_lift|intros url].
    apply emits_bind; [apply Hdl|intros changed; apply emits_print, Hline].
  - intros [u|exc]; [apply emits_ret|apply emits_print, Hfailed].
Qed.

Lemma emits_main_cad (spec : PartSpec) (target_dir : path) (part : json) :
  P (Print KicadUnavailable) ->
  (forall changed ext, P (Print (KicadLine changed
                                   (target_dir ++ [mpn spec +:+ " kicad" +:+ ext])))) ->
  (forall exc, P (Print (KicadFailed exc))) ->
  (forall url ext, emits I P (download_file E url
                                (target_dir ++ [mpn spec +:+ " kicad" +:+ ext]) false)) ->
  emits I P (main_cad E spec target_dir part).
Proof.
  intros Hnone Hline Hfailed Hdl. unfold main_cad.
  apply emits_bind; [apply emits_lift|intros [[kicad_url ext]|]]; [|now apply emits_print].
  apply emits_bind.
  - apply emits_try, emits_bind; [apply Hdl|intros changed; apply emits_print, Hline].
  - intros [u|exc]; [apply emits_ret|apply emits_print, Hfailed].
Qed.

Lemma emits_main_assets_from (base_dir : path) (skip : bool) (spec : PartSpec) (part : json) :
  P (Print NoDigikey) -> P (Print Blank) -> P (Sleep 500) ->
  (forall t t', I t -> mkdir_p t (base_dir ++ [folder spec]) = Ok t' -> I t') ->
  emits I P (main_datasheet E spec (base_dir ++ [folder spec]) part) ->
  (skip = false -> emits I P (main_cad E spec (base_dir ++ [folder spec]) part)) ->
  emits I P (main_assets E base_dir skip spec part).
Proof.
  intros Hdigi Hblank Hsleep Hmk Hds Hcad. unfold main_assets.
  apply emits_bind; [apply emits_lift|intros digi].
  apply emits_bind; [destruct digi; [apply emits_ret|now apply emits_print]|intros _].
  apply emits_bind; [apply emits_mkdir, Hmk|intros _].
  apply emits_bind; [exact Hds|intros _].
  apply emits_bind; [destruct skip; [apply emits_ret|now apply Hcad]|intros _].
  apply emits_bind; [now apply emits_print|intros _; now apply emits_emit].
Qed.

Lemma emits_main_part_from (token : json) (base_dir : path) (skip : bool) (spec : PartSpec) :
  P (Print (Header (mpn spec) (description spec))) ->
  P (PostJson GRAPHQL_ENDPOINT (mpn spec) (bearer token)) ->
  (forall exc, P (Print (FetchFailed exc))) -> P (Print Blank) ->
  (forall part, emits I P (main_assets E base_dir skip spec part)) ->
  emits I P (main_part E token base_dir skip spec).
Proof.
  intros Hhead Hquery Hfailed Hblank Hassets. unfold main_part.
  apply emits_bind; [now apply emits_print|intros _].
  apply emits_bind; [now apply emits_try, emits_fetch_part|intros [part|exc]].
  - apply Hassets.
  - apply emits_bind; [now apply emits_print|intros _; now apply emits_print].
Qed.

Lemma emits_main_body_from (parts : list PartSpec) (args : Args) :
  (forall u d, P (PostForm u d)) ->
  P (Print (Saving (output args))) -> P (Print Blank) ->
  (forall t t', I t -> mkdir_p t (output args) = Ok t' -> I t') ->
  (forall token spec, spec ∈ parts ->
     emits I P (main_part E token (output args) (skip_cad args) spec)) ->
  emits I P (main_body E parts args).
Proof.
  intros Hform Hsaving Hblank Hmk Hpart. unfold main_body.
  apply emits_bind; [now apply emits_main_token|intros [token|]]; [|apply emits_ret].
  apply emits_bind; [apply emits_mkdir, Hmk|intros _].
  apply emits_bind; [now apply emits_print|intros _].
  apply emits_bind; [now apply emits_print|intros _].
  apply emits_bind; [|intros _; apply emits_ret].
  apply emits_main_loop. intros spec Hs. now apply Hpart.
Qed.

End Steps.

Section Pacing.

Variable E : Env.

Lemma sleeps_app (a b : list event) : sleeps (a ++ b) = (sleeps a + sleeps b)%nat.
Proof. induction a as [|[] a IH]; cbn; auto. Qed.

Lemma failures_app (a b : list event) : failures (a ++ b) = (failures a + failures b)%nat.
Proof. induction a as [|[[]| | | | |] a IH]; cbn; auto. Qed.

Lemma ordinary_counts (evs : list event) :
  Forall ordinary evs -> sleeps evs = 0%nat /\ failures evs = 0%nat.
Proof.
  induction 1 as [|[[]| | | | |] evs H _ IH]; cbn in *; auto; contradiction.
Qed.

Lemma emits_ordinary_download (url : json) (destination : path) :
  emits (fun _ => True) ordinary (download_file E url destination false).
Proof. apply emits_download_file; auto; exact Logic.I. Qed.

(** A resolved part is followed by one delay when its processing ends
    normally, and by none when it raises. *)
Lemma main_assets_paced (base_dir : path) (skip : bool) (spec : PartSpec) (part : json) :
  hoare (fun _ => True) (main_assets E base_dir skip spec part)
        (fun r evs => failures evs = 0%nat
                      /\ sleeps evs = match r with Ok _ => 1%nat | Raise _ => 0%nat end).
Proof.
  assert (Hclosed : forall (r : res unit) e1 e2, Forall ordinary e1 ->
            failures e2 = 0%nat
            /\ sleeps e2 = match r with Ok _ => 1%nat | Raise _ => 0%nat end ->
            failures (e1 ++ e2) = 0%nat
            /\ sleeps (e1 ++ e2) = match r with Ok _ => 1%nat | Raise _ => 0%nat end).
  { intros r e1 e2 H1 [Hf Hs]. destruct (ordinary_counts _ H1) as [Hs1 Hf1].
    rewrite failures_app, sleeps_app, Hs1, Hf1, Hf, Hs. auto. }
  assert (Hraise : forall (e : exn) evs, Forall ordinary evs ->
            failures evs = 0%nat /\ sleeps evs = 0%nat).
  { intros e evs H. destruct (ordinary_counts _ H). auto. }
  unfold main_assets.
  apply hoare_prefixed with (P := ordinary); auto; [apply emits_lift|intros digi].
  apply hoare_prefixed with (P := ordinary); auto;
    [destruct digi; [apply emits_ret|now apply emits_print]|intros _].
  apply hoare_prefixed with (P := ordinary); auto; [now apply emits_mkdir|intros _].
  apply hoare_prefixed with (P := ordinary); auto.
  { apply emits_main_datasheet; try exact Logic.I; try (intros; exact Logic.I).
    intros url. apply emits_ordinary_download. }
  intros _. apply hoare_prefixed with (P := ordinary); auto.
  { destruct skip; [apply emits_ret|].
    apply emits_main_cad; try exact Logic.I; try (intros; exact Logic.I).
    intros url ext. apply emits_ordinary_download. }
  intros _. apply hoare_prefixed with (P := ordinary); auto;
    [now apply emits_print|intros _].
  apply hoare_emit. auto.
Qed.

Lemma main_part_paced (token : json) (base_dir : path) (skip : bool) (spec : PartSpec) :
  hoare (fun _ => True) (main_part E token base_dir skip spec)
        (fun r evs => match r with
                      | Ok _ => (sleeps evs + failures evs)%nat = 1%nat
                      | Raise _ => (sleeps evs + failures evs <= 1)%nat
                      end).
Proof.
  assert (Hclosed : forall (r : res unit) e1 e2, Forall ordinary e1 ->
            match r with
            | Ok _ => (sleeps e2 + failures e2)%nat = 1%nat
            | Raise _ => (sleeps e2 + failures e2 <= 1)%nat
            end ->
            match r with
            | Ok _ => (sleeps (e1 ++ e2) + failures (e1 ++ e2))%nat = 1%nat
            | Raise _ => (sleeps (e1 ++ e2) + failures (e1 ++ e2) <= 1)%nat
            end).
  { intros r e1 e2 H1 H2. destruct (ordinary_counts _ H1) as [Hs1 Hf1].
    rewrite failures_app, sleeps_app, Hs1, Hf1. exact H2. }
  assert (Hraise : forall (e : exn) evs, Forall ordinary evs ->
            (sleeps evs + failures evs <= 1)%nat).
  { intros e evs H. destruct (ordinary_counts _ H) as [-> ->]. cbn. lia. }
  unfold main_part.
  apply hoare_prefixed with (P := ordinary); auto; [now apply emits_print|intros _].
  apply hoare_prefixed with (P := ordinary); auto;
    [now apply emits_try, emits_fetch_part|intros [part|exc]].
  - eapply hoare_weaken; [apply main_assets_paced|].
    intros [u|e] evs [-> ->]; cbn; lia.
  - eapply hoare_bind
      with (Q1 := fun r evs => (sleeps evs + failures evs <= 1)%nat
                               /\ (r = Ok tt -> evs = [Print (FetchFailed exc)])).
    + apply hoare_print; [split; [cbn; lia|reflexivity]|].
      intros e; split; [cbn; lia|discriminate].
    + intros e evs [H _]. exact H.
    + intros [] e1 [_ H1]. rewrite (H1 eq_refl).
      apply hoare_print; [reflexivity|intros e; cbn; lia].
Qed.

(** X12.  Pacing law: in a run of the loop, each entry that ends normally
    is followed by one pacing delay or has one report of a failed
    resolution, never both and never neither; so when the loop completes,
    the delays and the failed resolutions add up to the number of entries,
    and before that they never exceed it. *)
Theorem main_loop_paced (token : json) (base_dir : path) (skip : bool)
    (parts : list PartSpec) (w : World) :
  exists evs,
    trace (main_loop E token base_dir skip parts w).2 = trace w ++ evs
    /\ (sleeps evs + failures evs <= length parts)%nat
    /\ ((main_loop E token base_dir skip parts w).1 = Ok tt ->
        (sleeps evs + failures evs)%nat = length parts).
Proof.
  assert (H : hoare (fun _ => True) (main_loop E token base_dir skip parts)
                (fun r evs => (sleeps evs + failures evs <= length parts)%nat
                              /\ (r = Ok tt -> (sleeps evs + failures evs)%nat = length parts))).
  { induction parts as [|spec rest IH]; cbn [main_loop length].
    - apply hoare_ret. cbn. auto.
    - eapply hoare_bind; [apply main_part_paced| |].
      + intros e evs H1. cbn in H1. split; [lia|discriminate].
      + intros u e1 H1. eapply hoare_weaken; [exact IH|].
        intros r e2 [Hle Heq]. rewrite sleeps_app, failures_app. cbn in H1.
        split; [lia|]. intros Hr. specialize (Heq Hr). lia. }
  destruct (H w Logic.I) as (evs & Ht & _ & Hq). exists evs. tauto.
Qed.

(** X13.  One query per entry: the queries of a run of the loop are the
    part numbers of the catalog, in order, each once, up to the entry at
    which the loop ended; when the loop completes, they are all of them. *)
Theorem main_loop_queries_in_order (token : json) (base_dir : path) (skip : bool)
    (parts : list PartSpec) (w : World) :
  exists evs,
    trace (main_loop E token base_dir skip parts w).2 = trace w ++ evs
    /\ queried evs `prefix_of` map mpn parts
    /\ ((main_loop E token base_dir skip parts w).1 = Ok tt ->
        queried evs = map mpn parts).
Proof.
  assert (H : hoare (fun _ => True) (main_loop E token base_dir skip parts)
                (fun r evs => queried evs `prefix_of` map mpn parts
                              /\ (r = Ok tt -> queried evs = map mpn parts))).
  { induction parts as [|spec rest IH]; cbn [main_loop map].
    - apply hoare_ret. split; [exists []|]; reflexivity.
    - eapply hoare_bind; [apply main_part_queries| |].
      + intros e evs [[->| ->] _]; (split; [|discriminate]).
        * apply prefix_nil.
        * exists (map mpn rest). reflexivity.
      + intros [] e1 [_ H1]. specialize (H1 eq_refl). eapply hoare_weaken; [exact IH|].
        intros r e2 [[k Hk] Heq]. rewrite queried_app, H1. cbn. split.
        * exists k. now rewrite Hk.
        * intros Hr. now rewrite (Heq Hr). }
  destruct (H w Logic.I) as (evs & Ht & _ & Hq). exists evs. tauto.
Qed.

(** X14.  What a query carries: every query of the loop goes to the
    GraphQL endpoint, asks for a part number of the catalog, and carries
    the token of the run in its [Authorization] header, or no such header
    when the token is empty. *)
Theorem main_loop_queries_authorized (token : json) (base_dir : path) (skip : bool)
    (parts : list PartSpec) (w : World) :
  exists evs,
    trace (main_loop E token base_dir skip parts w).2 = trace w ++ evs
    /\ forall url m authorization, PostJson url m authorization ∈ evs ->
         url = GRAPHQL_ENDPOINT
         /\ authorization = (if truthy token then Some token else None)
         /\ m ∈ map mpn parts.
Proof.
  pose (P := fun ev => match ev with
                       | PostJson url m authorization =>
                           url = GRAPHQL_ENDPOINT
                           /\ authorization = (if truthy token then Some token else None)
                           /\ m ∈ map mpn parts
                       | _ => True
                       end).
  assert (H : emits (fun _ => True) P (main_loop E token base_dir skip parts)).
  { apply emits_main_loop. intros spec Hs.
    apply emits_main_part; try (intros; exact Logic.I).
    - repeat split. apply list_elem_of_fmap. eauto.
    - intros url name. apply emits_download_file; auto; exact Logic.I. }
  destruct (H w Logic.I) as (evs & Ht & _ & Hev). exists evs. split; [exact Ht|].
  intros url m a Hin. rewrite Forall_forall in Hev. exact (Hev _ Hin).
Qed.

End Pacing.

(* ===================================================================== *)
(** * What a run writes                                                   *)
(* ===================================================================== *)

Section Layout.

Variable E : Env.

Lemma asset_path (base_dir : path) (f name : string) :
  (base_dir ++ [f]) ++ [name] = base_dir ++ [f; name].
Proof. now rewrite <- app_assoc. Qed.

(** X15.  Layout of the assets: every file a run opens for writing is the
    datasheet [<output>/<folder>/<mpn> datasheet.pdf] of a catalog entry
    or, unless [--skip-cad] is given, its KiCad library
    [<output>/<folder>/<mpn> kicad<ext>]; with [--skip-cad] the run prints
    no line about a KiCad library either. *)
Theorem main_writes_assets_only (parts : list PartSpec) (args : Args) (w : World) :
  exists evs,
    trace (main_on E parts args w).2 = trace w ++ evs
    /\ (forall d, OpenWrite d ∈ evs ->
          exists spec, spec ∈ parts
            /\ (d = output args ++ [folder spec; mpn spec +:+ " datasheet.pdf"]
                \/ (skip_cad args = false
                    /\ exists ext,
                         d = output args ++ [folder spec; mpn spec +:+ " kicad" +:+ ext])))
    /\ (skip_cad args = true -> forall l, Print l ∈ evs -> cad_line l = false).
Proof.
  pose (P := fun ev =>
               match ev with
               | OpenWrite d =>
                   exists spec, spec ∈ parts
                     /\ (d = output args ++ [folder spec; mpn spec +:+ " datasheet.pdf"]
                         \/ (skip_cad args = false
                             /\ exists ext,
                                  d = output args
                                        ++ [folder spec; mpn spec +:+ " kicad" +:+ ext]))
               | Print l => skip_cad args = true -> cad_line l = false
               | _ => True
               end).
  assert (H : emits (fun _ => True) P (main_body E parts args)).
  { apply emits_main_body_from; try (intros; exact Logic.I); try (intros ?; reflexivity).
    intros token spec Hs.
    apply emits_main_part_from; try (intros ?; reflexivity); try exact Logic.I.
    { intros exc ?. reflexivity. }
    intros part.
    apply emits_main_assets_from; try (intros ?; reflexivity); try exact Logic.I; auto.
    - apply emits_main_datasheet; try (intros ?; reflexivity).
      { intros changed ?. reflexivity. }
      { intros exc ?. reflexivity. }
      intros url. apply emits_download_file; auto; try exact Logic.I.
      exists spec. split; [exact Hs|]. left. apply asset_path.
    - intros Hskip.
      apply emits_main_cad; try (intros ? ? ?; congruence); try (intros ? ?; congruence);
        try (intros ?; congruence).
      intros url ext. apply emits_download_file; auto; try exact Logic.I.
      exists spec. split; [exact Hs|]. right. split; [exact Hskip|].
      exists ext. apply asset_path. }
  rewrite main_on_world.
  destruct (H w Logic.I) as (evs & Ht & _ & Hev). exists evs.
  rewrite Forall_forall in Hev. split; [exact Ht|]. split.
  - intros d Hin. exact (Hev _ Hin).
  - intros Hskip l Hin. exact (Hev _ Hin Hskip).
Qed.

(** X16.  Nothing else is touched: whatever is in the tree before a run
    (a file, empty or not, or a directory) and is not the datasheet or the
    KiCad library of a catalog entry is there, unchanged, after the run,
    however the run ends. *)
Theorem main_keeps_other_entries (parts : list PartSpec) (args : Args) (w : World)
    (p : path) (n : node) :
  fs w !! p = Some n ->
  (forall spec, spec ∈ parts ->
     p <> output args ++ [folder spec; mpn spec +:+ " datasheet.pdf"]
     /\ forall ext, p <> output args ++ [folder spec; mpn spec +:+ " kicad" +:+ ext]) ->
  fs (main_on E parts args w).2 !! p = Some n.
Proof.
  intros Hp Hother.
  assert (Hmk : forall t t' q, t !! p = Some n -> mkdir_p t q = Ok t' -> t' !! p = Some n).
  { intros t t' q Ht Hm. eapply mkdir_p_keeps; eassumption. }
  assert (H : emits (fun t => t !! p = Some n) (fun _ => True) (main_body E parts args)).
  { apply emits_main_body_from; try (intros; exact Logic.I); eauto.
    intros token spec Hs. destruct (Hother spec Hs) as [Hds Hcad].
    apply emits_main_part_from; try (intros; exact Logic.I).
    intros part.
    apply emits_main_assets_from; try (intros; exact Logic.I); eauto.
    - apply emits_main_datasheet; try (intros; exact Logic.I).
      intros url. apply emits_download_file; try exact Logic.I; eauto.
      intros t c Ht. rewrite lookup_insert_ne; [exact Ht|].
      rewrite asset_path. congruence.
    - intros _. apply emits_main_cad; try (intros; exact Logic.I).
      intros url ext. apply emits_download_file; try exact Logic.I; eauto.
      intros t c Ht. rewrite lookup_insert_ne; [exact Ht|].
      rewrite asset_path. intros Heq. exact (Hcad ext (eq_sym Heq)). }
  rewrite main_on_world. destruct (H w Hp) as (evs & _ & Hfs & _). exact Hfs.
Qed.


End Layout.

(* ===================================================================== *)
(** * Transfers per entry                                                 *)
(* ===================================================================== *)

Section Transfers.

Variable E : Env.

Lemma gets_none (evs : list event) : Forall not_a_transfer evs -> gets evs = 0%nat.
Proof. induction 1 as [|[] evs H _ IH]; cbn in *; auto; contradiction. Qed.

Lemma gets_bound_closed (k : nat) :
  forall (A : Type) (r : res A) e1 e2,
    Forall not_a_transfer e1 -> (gets e2 <= k)%nat -> (gets (e1 ++ e2) <= k)%nat.
Proof. intros A r e1 e2 H1 H2. rewrite gets_app, (gets_none _ H1). exact H2. Qed.

Lemma gets_bound_raise (k : nat) :
  forall (e : exn) evs, Forall not_a_transfer evs -> (gets evs <= k)%nat.
Proof. intros e evs H. rewrite (gets_none _ H). lia. Qed.

(** A call of [download_file] starts at most one transfer. *)
Lemma download_file_one_transfer (url : json) (destination : path) (overwrite : bool) :
  hoare (fun _ => True) (download_file E url destination overwrite)
        (fun _ evs => (gets evs <= 1)%nat).
Proof.
  intros w _.
  pose proof (download_file_cases E url destination overwrite w) as Hc.
  destruct (download_file E url destination overwrite w) as [r w']. cbn [fst snd] in *.
  inversion Hc; subst; cbn [fs trace].
  - exists []. rewrite app_nil_r. cbn. auto.
  - exists []. rewrite app_nil_r. cbn. auto.
  - exists [Get url]. cbn. auto.
  - exists [Get url]. cbn. auto.
  - exists [Get url; OpenWrite destination]. rewrite <- app_assoc. cbn. auto.
Qed.

Lemma main_datasheet_one_transfer (spec : PartSpec) (target_dir : path) (part : json) :
  hoare (fun _ => True) (main_datasheet E spec target_dir part)
        (fun _ evs => (gets evs <= 1)%nat).
Proof.
  unfold main_datasheet.
  apply hoare_prefixed with (P := not_a_transfer);
    [apply emits_lift|intros datasheet|apply gets_bound_raise|apply (gets_bound_closed 1)].
  destruct (truthy datasheet); [|apply hoare_print; intros; cbn; lia].
  eapply hoare_bind with (Q1 := fun _ evs => (gets evs <= 1)%nat).
  - apply hoare_try.
    apply hoare_prefixed with (P := not_a_transfer);
      [apply emits_lift|intros url|apply gets_bound_raise|apply (gets_bound_closed 1)].
    eapply hoare_bind; [apply download_file_one_transfer|auto|].
    intros changed e1 H1. cbn in H1.
    apply hoare_print; intros; rewrite ?gets_app, ?app_nil_r; cbn; lia.
  - auto.
  - intros [u|exc] e1 H1; cbn in H1;
      [apply hoare_ret|apply hoare_print; intros]; rewrite ?gets_app, ?app_nil_r; cbn; lia.
Qed.

Lemma main_cad_one_transfer (spec : PartSpec) (target_dir : path) (part : json) :
  hoare (fun _ => True) (main_cad E spec target_dir part)
        (fun _ evs => (gets evs <= 1)%nat).
Proof.
  unfold main_cad.
  apply hoare_prefixed with (P := not_a_transfer);
    [apply emits_lift|intros request|apply gets_bound_raise|apply (gets_bound_closed 1)].
  destruct request as [[kicad_url ext]|]; [|apply hoare_print; intros; cbn; lia].
  eapply hoare_bind with (Q1 := fun _ evs => (gets evs <= 1)%nat).
  - apply hoare_try.
    eapply hoare_bind; [apply download_file_one_transfer|auto|].
    intros changed e1 H1. cbn in H1.
    apply hoare_print; intros; rewrite ?gets_app, ?app_nil_r; cbn; lia.
  - auto.
  - intros [u|exc] e1 H1; cbn in H1;
      [apply hoare_ret|apply hoare_print; intros]; rewrite ?gets_app, ?app_nil_r; cbn; lia.
Qed.

Lemma main_part_transfers (token : json) (base_dir : path) (skip : bool) (spec : PartSpec) :
  hoare (fun _ => True) (main_part E token base_dir skip spec)
        (fun _ evs => (gets evs <= if skip then 1 else 2)%nat).
Proof.
  set (k := if skip then 1%nat else 2%nat).
  assert (Hk : (1 <= k)%nat) by (subst k; destruct skip; lia).
  unfold main_part.
  apply hoare_prefixed with (P := not_a_transfer);
    [now apply emits_print|intros _|apply gets_bound_raise|apply (gets_bound_closed k)].
  apply hoare_prefixed with (P := not_a_transfer);
    [now apply emits_try, emits_fetch_part|intros [part|exc]
    |apply gets_bound_raise|apply (gets_bound_closed k)].
  2: { apply hoare_prefixed with (P := not_a_transfer);
         [now apply emits_print|intros _|apply gets_bound_raise|apply (gets_bound_closed k)].
       apply hoare_print; intros; cbn; lia. }
  unfold main_assets.
  apply hoare_prefixed with (P := not_a_transfer);
    [apply emits_lift|intros digi|apply gets_bound_raise|apply (gets_bound_closed k)].
  apply hoare_prefixed with (P := not_a_transfer);
    [destruct digi; [apply emits_ret|now apply emits_print]|intros _
    |apply gets_bound_raise|apply (gets_bound_closed k)].
  apply hoare_prefixed with (P := not_a_transfer);
    [now apply emits_mkdir|intros _|apply gets_bound_raise|apply (gets_bound_closed k)].
  eapply hoare_bind; [apply main_datasheet_one_transfer|intros; cbn in *; lia|].
  intros u1 e1 H1. cbn in H1.
  eapply hoare_bind with (Q1 := fun _ evs => (gets evs <= k - 1)%nat).
  - subst k. destruct skip; [apply hoare_ret; cbn; lia|apply main_cad_one_transfer].
  - intros e evs H2. rewrite gets_app. lia.
  - intros u2 e2 H2.
    eapply hoare_bind with (Q1 := fun _ evs => gets evs = 0%nat).
    + apply hoare_print; intros; reflexivity.
    + intros e evs H3. rewrite !gets_app. lia.
    + intros u3 e3 H3. apply hoare_emit. rewrite !gets_app. cbn. lia.
Qed.

(** X18.  Transfers per entry: a run of the loop starts at most two
    transfers per catalog entry, the datasheet and the KiCad library, and
    at most one with [--skip-cad]; no transfer is tried a second time. *)
Theorem main_loop_transfers (token : json) (base_dir : path) (skip : bool)
    (parts : list PartSpec) (w : World) :
  exists evs,
    trace (main_loop E token base_dir skip parts w).2 = trace w ++ evs
    /\ (gets evs <= (if skip then 1 else 2) * length parts)%nat.
Proof.
  assert (H : hoare (fun _ => True) (main_loop E token base_dir skip parts)
                (fun _ evs => (gets evs <= (if skip then 1 else 2) * length parts)%nat)).
  { induction parts as [|spec rest IH]; cbn [main_loop length].
    - apply hoare_ret. cbn. lia.
    - eapply hoare_bind; [apply main_part_transfers| |].
      + intros e evs H1. destruct skip; cbn in *; lia.
      + intros u e1 H1. eapply hoare_weaken; [exact IH|].
        intros r e2 H2. rewrite gets_app. destruct skip; cbn in *; lia. }
  destruct (H w Logic.I) as (evs & Ht & _ & Hq). eauto.
Qed.

End Transfers.

(* ===================================================================== *)
(** * The statements at concrete inputs                                   *)
(* ===================================================================== *)

Lemma fetch_part_errors_witness :
  fetch_part (replying (JObj [("errors", JArr [JStr "rate limit"]);
                              ("data", JObj [("supSearch", JNull)])]))
             (JStr "secret") "X" (start ∅)
  = (Raise (RuntimeError (QueryError "X" (JArr [JStr "rate limit"]))),
     {| fs := ∅;
        trace := [PostJson GRAPHQL_ENDPOINT "X" (Some (JStr "secret"))] |})
  /\ fetch_part offline (JStr "secret") "X" (start ∅)
     = (Raise (URLError "unreachable"),
        {| fs := ∅;
           trace := [PostJson GRAPHQL_ENDPOINT "X" (Some (JStr "secret"))] |}).
Proof.
  split.
  - apply (proj2 (fetch_part_errors
                    (replying (JObj [("errors", JArr [JStr "rate limit"]);
                                     ("data", JObj [("supSearch", JNull)])]))
                    (JStr "secret") "X" (start ∅))
             [("errors", JArr [JStr "rate limit"]); ("data", JObj [("supSearch", JNull)])]);
      reflexivity.
  - apply (proj1 (fetch_part_errors offline (JStr "secret") "X" (start ∅))). reflexivity.
Defined.

Lemma fetch_part_no_result_witness :
  let sent := {| fs := ∅;
                 trace := [PostJson GRAPHQL_ENDPOINT "X" (Some (JStr "secret"))] |} in
  fetch_part (replying (JObj [("message", JStr "ok")])) (JStr "secret") "X" (start ∅)
  = (Raise (RuntimeError (NoResult "X")), sent)
  /\ fetch_part (replying (JObj [("data", JObj [("supSearch", JObj [("results", JArr [])])])]))
                (JStr "secret") "X" (start ∅)
     = (Raise (RuntimeError (NoResult "X")), sent)
  /\ fetch_part (replying (JObj [("data", JNull)])) (JStr "secret") "X" (start ∅)
     = (Raise AttributeError, sent).
Proof.
  cbn zeta. split; [|split].
  - apply (proj1 (fetch_part_no_result (replying (JObj [("message", JStr "ok")]))
                    (JStr "secret") "X" (start ∅) [("message", JStr "ok")]
                    eq_refl eq_refl)).
    reflexivity.
  - apply (proj1 (proj2 (proj2
             (fetch_part_no_result
                (replying (JObj [("data", JObj [("supSearch", JObj [("results", JArr [])])])]))
                (JStr "secret") "X" (start ∅)
                [("data", JObj [("supSearch", JObj [("results", JArr [])])])]
                eq_refl eq_refl)))
             [("supSearch", JObj [("results", JArr [])])] [("results", JArr [])]);
      reflexivity.
  - apply (proj2 (proj2 (proj2
             (fetch_part_no_result (replying (JObj [("data", JNull)]))
                (JStr "secret") "X" (start ∅) [("data", JNull)] eq_refl eq_refl)))).
    reflexivity.
Defined.

Lemma fetch_part_first_result_witness :
  fetch_part healthy (JStr "secret") "X" (start ∅)
  = (Ok plain_part,
     {| fs := ∅; trace := [PostJson GRAPHQL_ENDPOINT "X" (Some (JStr "secret"))] |}).
Proof.
  apply (fetch_part_first_result healthy (JStr "secret") "X" (start ∅)
           [("data", JObj [("supSearch", JObj [("results", JArr [JObj [("part", plain_part)]])])])]
           [("supSearch", JObj [("results", JArr [JObj [("part", plain_part)]])])]
           [("results", JArr [JObj [("part", plain_part)]])]
           [("part", plain_part)] [] plain_part); reflexivity.
Defined.

Lemma fetch_token_returns_access_token_witness :
  fetch_token granting "id" "hunter2" DEFAULT_SCOPE (start ∅)
  = (Ok (JStr " tok "),
     {| fs := ∅;
        trace := [PostForm TOKEN_ENDPOINT
                    [("grant_type", "client_credentials"); ("client_id", "id");
                     ("client_secret", "hunter2"); ("scope", DEFAULT_SCOPE)]] |}).
Proof.
  apply (fetch_token_returns_access_token granting "id" "hunter2" DEFAULT_SCOPE (start ∅)
           [("access_token", JStr " tok "); ("expires_in", JNum 86400)] (JStr " tok "));
    reflexivity.
Defined.

Lemma cad_request_sound_witness :
  (truthy (JStr "https://c/x.zip") = true /\ ".zip" <> "")
  /\ cad_request healthy plain_part = Ok None.
Proof.
  split.
  - destruct (proj1 (cad_request_sound healthy cad_part) (JStr "https://c/x.zip") ".zip"
                eq_refl) as (Hu & He & _).
    split; [exact Hu|exact He].
  - apply (proj2 (cad_request_sound healthy plain_part)
             [("mpn", JStr "X");
              ("sellers", JArr [JObj [("company", JObj [("name", JStr "DigiKey")])]]);
              ("bestDatasheet",
               JObj [("name", JStr "Datasheet"); ("url", JStr "https://d/x.pdf")]);
              ("documentCollections", JArr []);
              ("cad", JNull)] eq_refl).
    right. reflexivity.
Defined.

Lemma pick_datasheet_total_witness :
  "https://d/best" <> "" /\ "Datasheet" <> ""
  /\ (usable_best priority_part = None -> mentions_datasheet "Datasheet" = true).
Proof.
  apply (proj2 (pick_datasheet_total priority_part) "Datasheet" "https://d/best").
  reflexivity.
Defined.

Lemma mkdir_p_stocked :
  exists t1, mkdir_p stocked ["components"; "esp32 module"] = Ok t1.
Proof.
  apply (mkdir_walk_succeeds ["components"; "esp32 module"] stocked []).
  intros q c Hq Hl. apply prefix_length in Hq. unfold stocked in Hl.
  apply lookup_insert_Some in Hl as [[_ Hl]|[_ Hl]]; [discriminate|].
  apply lookup_insert_Some in Hl as [[_ Hl]|[_ Hl]]; [discriminate|].
  apply lookup_singleton_Some in Hl as [<- _]. cbn in Hq. lia.
Qed.

Lemma download_file_writes_body_witness :
  exists t1,
    download_file healthy (JStr "https://d/x.pdf") ["components"; "x"; "X datasheet.pdf"]
                  false (start ∅)
    = (Ok true,
       {| fs := <[ ["components"; "x"; "X datasheet.pdf"] := File (concat [pdf]) ]> t1;
          trace := ([] ++ [Get (JStr "https://d/x.pdf")])
                   ++ [OpenWrite ["components"; "x"; "X datasheet.pdf"]] |}).
Proof.
  destruct (mkdir_p_empty ["components"; "x"]) as [t1 Hm].
  exists t1.
  apply (download_file_writes_body healthy (JStr "https://d/x.pdf")
           ["components"; "x"; "X datasheet.pdf"] false (start ∅) t1 [pdf]).
  - reflexivity.
  - exact Hm.
  - discriminate.
  - reflexivity.
  - repeat constructor. discriminate.
Defined.

Lemma download_file_leaves_partial_file_witness :
  let destination := ["components"; "x"; "X datasheet.pdf"] in
  exists t1,
    let w' := {| fs := <[ destination := File (concat [pdf]) ]> t1;
                 trace := ([] ++ [Get (JStr "https://d/x.pdf")])
                          ++ [OpenWrite destination] |} in
    download_file interrupted (JStr "https://d/x.pdf") destination false (start ∅)
    = (Raise (OtherError "IncompleteRead"), w')
    /\ download_file interrupted (JStr "https://d/x.pdf") destination false w'
       = (Ok false, w').
Proof.
  cbn zeta.
  destruct (mkdir_p_empty ["components"; "x"]) as [t1 Hm].
  exists t1.
  destruct (download_file_leaves_partial_file interrupted (JStr "https://d/x.pdf")
              ["components"; "x"; "X datasheet.pdf"] false (start ∅) t1 [pdf]
              (OtherError "IncompleteRead") []) as [H1 H2].
  - reflexivity.
  - exact Hm.
  - discriminate.
  - reflexivity.
  - repeat constructor. discriminate.
  - split; [exact H1|]. apply H2. discriminate.
Defined.

Lemma download_file_overwrite_witness :
  exists evs,
    trace (download_file healthy (JStr "https://d/x.pdf")
             ["components"; "esp32 module"; "ESP32-S3-WROOM-1-N16R8 datasheet.pdf"]
             true (start stocked)).2
    = [] ++ Get (JStr "https://d/x.pdf") :: evs.
Proof.
  destruct mkdir_p_stocked as [t1 Hm].
  exact (proj2 (download_file_overwrite healthy (JStr "https://d/x.pdf")
                  ["components"; "esp32 module"; "ESP32-S3-WROOM-1-N16R8 datasheet.pdf"]
                  (start stocked)) t1 Hm).
Defined.

Lemma main_loop_paced_witness :
  exists evs,
    trace (main_loop offline (JStr "secret") ["components"] false PARTS (start ∅)).2
    = [] ++ evs
    /\ (sleeps evs + failures evs)%nat = length PARTS.
Proof.
  destruct (main_loop_paced offline (JStr "secret") ["components"] false PARTS (start ∅))
    as (evs & Ht & _ & Heq).
  exists evs. split; [exact Ht|]. apply Heq. vm_compute. reflexivity.
Defined.

Lemma main_loop_queries_in_order_witness :
  exists evs,
    trace (main_loop offline (JStr "secret") ["components"] false PARTS (start ∅)).2
    = [] ++ evs
    /\ queried evs = map mpn PARTS.
Proof.
  destruct (main_loop_queries_in_order offline (JStr "secret") ["components"] false PARTS
              (start ∅)) as (evs & Ht & _ & Heq).
  exists evs. split; [exact Ht|]. apply Heq. vm_compute. reflexivity.
Defined.

Lemma main_loop_queries_authorized_witness :
  exists evs,
    trace (main_loop healthy (JStr "secret") ["components"] false PARTS (start ∅)).2
    = [] ++ evs
    /\ forall url m authorization, PostJson url m authorization ∈ evs ->
         url = GRAPHQL_ENDPOINT
         /\ authorization = Some (JStr "secret")
         /\ m ∈ map mpn PARTS.
Proof.
  exact (main_loop_queries_authorized healthy (JStr "secret") ["components"] false PARTS
           (start ∅)).
Defined.

Lemma main_writes_assets_only_witness :
  exists evs,
    trace (main_on healthy PARTS with_token (start ∅)).2 = [] ++ evs
    /\ (forall d, OpenWrite d ∈ evs ->
          exists spec, spec ∈ PARTS
            /\ (d = ["components"] ++ [folder spec; mpn spec +:+ " datasheet.pdf"]
                \/ (false = false
                    /\ exists ext,
                         d = ["components"] ++ [folder spec; mpn spec +:+ " kicad" +:+ ext])))
    /\ (false = true -> forall l, Print l ∈ evs -> cad_line l = false).
Proof. exact (main_writes_assets_only healthy PARTS with_token (start ∅)). Defined.

Lemma main_keeps_other_entries_witness :
  fs (main_on healthy PARTS with_token (start lived_in)).2 !! ["components"; "notes.txt"]
  = Some (File []).
Proof.
  apply (main_keeps_other_entries healthy PARTS with_token (start lived_in)
           ["components"; "notes.txt"] (File [])); [reflexivity|].
  intros spec _. split; [|intros ext]; discriminate.
Defined.

